(** * dsgen: bit-precise record layouts and stream serialisation generators

    A shallow embedding of [xilinxutils/dsgen.py].  Python [int] is [Z],
    Python [str] is [string] (ASCII), a raised exception is the [Raise]
    branch of [result], and the generators build their [lines] list exactly
    as the source does before joining it with newlines. *)

From Stdlib Require Import ZArith List String Ascii Bool Lia.
From Stdlib Require Import DecimalString.
From Stdlib Require DecimalPos DecimalZ.
Import ListNotations.

Local Open Scope string_scope.
Local Open Scope list_scope.
Local Open Scope Z_scope.

(** String concatenation is written [+:+]; [++] is kept for lists. *)
Infix "+:+" := String.append (at level 60, right associativity).

(** ** Exceptions *)

Inductive exn : Type :=
| ValueError (msg : string)
| TypeError (msg : string)
| NotImplementedError.

Inductive result (A : Type) : Type :=
| Ok (a : A)
| Raise (e : exn).

Arguments Ok {A} a.
Arguments Raise {A} e.

Definition bind {A B : Type} (r : result A) (k : A -> result B) : result B :=
  match r with
  | Ok a => k a
  | Raise e => Raise e
  end.

Notation "x <- r ;; k" := (bind r (fun x => k))
  (at level 61, r at next level, right associativity).
Notation "' pat <- r ;; k" := (bind r (fun x => match x with pat => k end))
  (at level 61, pat pattern, r at next level, right associativity).

Definition returns {A : Type} (r : result A) : bool :=
  match r with Ok _ => true | Raise _ => false end.

(** ** Text helpers *)

Definition nl : string := String (ascii_of_nat 10) EmptyString.
Definition dq : string := String (ascii_of_nat 34) EmptyString.

(** [str(n)] for an integer. *)
Definition str (n : Z) : string := NilZero.string_of_int (Z.to_int n).

(** [sep.join(lines)] *)
Definition join (sep : string) (lines : list string) : string :=
  String.concat sep lines.

(** [f"{x}"] for a variable that holds a string or [None]. *)
Definition fmt (o : option string) : string :=
  match o with
  | Some s => s
  | None => "None"
  end.

(** ASCII whitespace as removed by [str.strip()]. *)
Definition is_space (c : ascii) : bool :=
  let n := nat_of_ascii c in
  ((9 <=? n) && (n <=? 13) || (28 <=? n) && (n <=? 32))%nat.

Fixpoint all_space (s : string) : bool :=
  match s with
  | EmptyString => true
  | String c s' => is_space c && all_space s'
  end.

(** truth value of [s.strip()] *)
Definition strip_nonempty (s : string) : bool := negb (all_space s).

(** truth value of a string *)
Definition truthy (s : string) : bool :=
  match s with EmptyString => false | _ => true end.

(** [str.upper] and [str.lower] on ASCII text.  The characters of a
    [string] are bytes; text outside ASCII, where Python's case mappings do
    more than shift the 26 letters, is not represented. *)
Definition upper_ascii (c : ascii) : ascii :=
  let n := nat_of_ascii c in
  if ((97 <=? n) && (n <=? 122))%nat then ascii_of_nat (n - 32) else c.

Definition lower_ascii (c : ascii) : ascii :=
  let n := nat_of_ascii c in
  if ((65 <=? n) && (n <=? 90))%nat then ascii_of_nat (n + 32) else c.

Fixpoint map_string (f : ascii -> ascii) (s : string) : string :=
  match s with
  | EmptyString => EmptyString
  | String c s' => String (f c) (map_string f s')
  end.

Definition upper : string -> string := map_string upper_ascii.
Definition lower : string -> string := map_string lower_ascii.

(** [s.replace(a, b)] for single characters. *)
Definition replace_char (a b : ascii) : string -> string :=
  map_string (fun c => if Ascii.eqb c a then b else c).

(** ** Type descriptors *)

(** An element of the [entries] argument of [EnumType]: a [str]; a tuple
    [(name, value)] of a name and an integer; or a value that is neither a
    [str] nor a tuple (a number, a list, [None], ...).  Tuples of any other
    shape are not represented: the source takes them through the tuple
    branch, where [e[1]] or [e[1] + 1] decides what happens. *)
Inductive entry : Type :=
| EStr (e : string)
| ETuple (name : string) (val : Z)
| EOther.

(** The three concrete subclasses of [BaseType], with the attributes their
    constructors store. *)
Inductive BaseType : Type :=
| IntType (width : Z) (signed : bool)
| FloatType
| EnumType (name : string) (entries : list (string * Z)) (width : Z).

Definition width (t : BaseType) : Z :=
  match t with
  | IntType w _ => w
  | FloatType => 32
  | EnumType _ _ w => w
  end.

(** [IntType.__init__] *)
Definition IntType_init (w : Z) (signed : bool) : result BaseType :=
  if w <=? 0 then Raise (ValueError "Width must be positive")
  else Ok (IntType w signed).

(** [FloatType.__init__] *)
Definition FloatType_init : result BaseType := Ok FloatType.

(** [math.log2] works on doubles, so [math.ceil(math.log2(n))] is the
    ceiling of a rounded logarithm of a rounded argument. *)

(** ln 2 to sixty decimal places, as the fraction [ln2_num / ln2_den]. *)
Definition ln2_num : Z :=
  693147180559945309417232121458176568075500134360255254120680.
Definition ln2_den : Z := 10 ^ 60.

(** The double nearest to the integer [n >= 1], ties going to the even
    significand: the pair [(sig, k)] stands for [sig * 2^(k - 52)] with
    [2^52 <= sig < 2^53].  Integers below 2^53 are doubles themselves. *)
Definition double_of_int (n : Z) : Z * Z :=
  let k := Z.log2 n in
  if k <=? 52 then (n * 2 ^ (52 - k), k)
  else
    let s := k - 52 in
    let q := n / 2 ^ s in
    let r := n mod 2 ^ s in
    let half := 2 ^ (s - 1) in
    let q' :=
      if (half <? r) || ((r =? half) && Z.odd q) then q + 1 else q in
    if q' =? 2 ^ 53 then (2 ^ 52, k + 1) else (q', k).

(** Whether the logarithm of the double [(2^52 + m) * 2^(k - 52)] comes out
    as the integer [k].  It does for a power of two ([m = 0]).  Otherwise
    the logarithm exceeds [k] by about [m / (2^52 ln 2)], and the double
    result is [k] when that excess is at most half a unit in the last place
    of [k], where [2^j <= k < 2^(j+1)]: when [m <= 2^(j-1) ln 2].  A double
    of 2^1024 or more does not exist; [math.log2] then adds the exponent to
    the logarithm of the fraction in [[1/2, 1)], which has been rounded
    once already, and the bound is [m < (2^j + 1/2) (ln 2) / 2].  (The
    exponent itself is taken to be a double, as it is for every integer of
    fewer than 2^53 bits.) *)
Definition log2_is_floor (m k : Z) : bool :=
  let j := Z.log2 k in
  (m =? 0)
  || (if 1024 <=? k
      then m <=? ((2 ^ (j + 1) + 1) * ln2_num) / (4 * ln2_den)
      else m <=? (2 ^ (j - 1) * ln2_num) / ln2_den).

(** [math.ceil(math.log2(n))] on a Python integer: a domain error for a
    non-positive argument; otherwise the argument is rounded to a double,
    and the ceiling of its logarithm is the exponent [k] of that double when
    the logarithm comes out as [k], and [k + 1] when it comes out above.  Up
    to 2^48 this is the exact ceiling of the binary logarithm
    ([ceil_log2_small]); beyond, it can be one less ([2^49 + 1] gives 49). *)
Definition ceil_log2 (n : Z) : result Z :=
  if n <=? 0 then Raise (ValueError "math domain error")
  else
    let '(sig, k) := double_of_int n in
    Ok (if log2_is_floor (sig - 2 ^ 52) k then k else k + 1).

(** The loop of [EnumType.__init__] over [entries]: the stored entries and
    the auto-counter [next_val]. *)
Fixpoint enum_loop (es : list entry) (acc : list (string * Z)) (next_val : Z)
  : result (list (string * Z) * Z) :=
  match es with
  | [] => Ok (acc, next_val)
  | EStr e :: es' => enum_loop es' (acc ++ [(e, next_val)]) (next_val + 1)
  | ETuple n v :: es' => enum_loop es' (acc ++ [(n, v)]) (v + 1)
  | EOther :: _ => Raise (ValueError "Enum entries must be str or (str, int)")
  end.

(** [EnumType.__init__] *)
Definition EnumType_init (name : string) (es : list entry) (w : option Z)
  : result BaseType :=
  '(stored, next_val) <- enum_loop es [] 0 ;;
  w' <- match w with
        | None => l <- ceil_log2 next_val ;; Ok (Z.max 1 l)
        | Some w0 => Ok w0
        end ;;
  Ok (EnumType name stored w').

(** [cpp_repr] *)
Definition cpp_repr (t : BaseType) : string :=
  match t with
  | IntType w signed =>
      (if signed then "ap_int" else "ap_uint") +:+ "<" +:+ str w +:+ ">"
  | FloatType => "float"
  | EnumType _ _ w => "ap_uint<" +:+ str w +:+ ">"
  end.

(** The slice text [word.range(high, ind0)]. *)
Definition range_of (word_name : string) (w ind0 : Z) : string :=
  let high := ind0 + w - 1 in
  word_name +:+ ".range(" +:+ str high +:+ ", " +:+ str ind0 +:+ ")".

Definition float_union : string := "union { float f; ap_uint<32> u; } conv;".

(** [read_expr_impl] of each subclass *)
Definition read_expr_impl (t : BaseType) (word_name : string)
  (word_width ind0 : Z) : result string :=
  match t with
  | IntType w _ | EnumType _ _ w =>
      if (w =? word_width) && (ind0 =? 0) then Ok word_name
      else Ok (range_of word_name w ind0)
  | FloatType =>
      if word_width <? ind0 + 32
      then Raise (ValueError "Float field does not fit in word")
      else
        let src_expr :=
          if (32 =? word_width) && (ind0 =? 0) then word_name
          else range_of word_name 32 ind0 in
        Ok (float_union +:+ nl
            +:+ "        conv.u = " +:+ src_expr +:+ ";" +:+ nl
            +:+ "        /* assign to variable */ conv.f")
  end.

(** [write_expr_impl] of each subclass *)
Definition write_expr_impl (t : BaseType) (var_name word_name : string)
  (word_width ind0 : Z) : result string :=
  match t with
  | IntType w _ | EnumType _ _ w =>
      if (w =? word_width) && (ind0 =? 0)
      then Ok (word_name +:+ " = " +:+ var_name +:+ ";")
      else Ok (range_of word_name w ind0 +:+ " = " +:+ var_name +:+ ";")
  | FloatType =>
      if word_width <? ind0 + 32
      then Raise (ValueError "Float field does not fit in word")
      else
        Ok (float_union +:+ nl
            +:+ "        conv.f = " +:+ var_name +:+ ";" +:+ nl
            +:+ "        " +:+ range_of word_name 32 ind0 +:+ " = conv.u;")
  end.

Definition overflow_msg : string :=
  "Type bitwidth exceeds word bitwidth at given index.".

(** [BaseType.read_expr] *)
Definition read_expr (t : BaseType) (word_name : string)
  (word_width ind0 : Z) : result string :=
  if word_width <? width t + ind0 then Raise (ValueError overflow_msg)
  else read_expr_impl t word_name word_width ind0.

(** [BaseType.write_expr] *)
Definition write_expr (t : BaseType) (var_name word_name : string)
  (word_width ind0 : Z) : result string :=
  if word_width <? width t + ind0 then Raise (ValueError overflow_msg)
  else write_expr_impl t var_name word_name word_width ind0.

(** [preamble]: [None] except for an enumeration. *)
Definition preamble (t : BaseType) : option string :=
  match t with
  | EnumType name entries _ =>
      let enumerators :=
        join ("," +:+ nl +:+ "        ")
             (map (fun nv => fst nv +:+ " = " +:+ str (snd nv)) entries) in
      Some ("enum " +:+ name +:+ " : unsigned int {" +:+ nl
            +:+ "        " +:+ enumerators +:+ nl +:+ "    };")
  | _ => None
  end.

(** ** Fields and record layouts *)

Record FieldInfo : Type := {
  name : string;
  dtype : BaseType;
  descr : option string;
  comment_style : string
}.

Definition descr_truthy (f : FieldInfo) : bool :=
  match descr f with
  | Some d => truthy d
  | None => false
  end.

(** [FieldInfo.cpp_decl] *)
Definition cpp_decl (f : FieldInfo) : string :=
  if descr_truthy f && String.eqb (comment_style f) "above" then
    "    // " +:+ fmt (descr f) +:+ nl
    +:+ "    " +:+ cpp_repr (dtype f) +:+ " " +:+ name f +:+ ";"
  else if descr_truthy f && String.eqb (comment_style f) "inline" then
    "    " +:+ cpp_repr (dtype f) +:+ " " +:+ name f +:+ "; // " +:+ fmt (descr f)
  else
    "    " +:+ cpp_repr (dtype f) +:+ " " +:+ name f +:+ ";".

Record DataStructGen : Type := {
  ds_name : string;
  fields : list FieldInfo;
  stream_bus_widths : list Z
}.

(** [DataStructGen.__init__] *)
Definition DataStructGen_init (nm : string) (fs : option (list FieldInfo))
  : DataStructGen :=
  {| ds_name := nm;
     fields := match fs with Some l => l | None => [] end;
     stream_bus_widths := [] |}.

(** [add_field] *)
Definition add_field (self : DataStructGen) (f : FieldInfo) : DataStructGen :=
  {| ds_name := ds_name self;
     fields := fields self ++ [f];
     stream_bus_widths := stream_bus_widths self |}.

(** [DataStructGen.cpp_decl] *)
Definition struct_decl (self : DataStructGen) : string :=
  join nl (["struct " +:+ ds_name self +:+ " {"]
           ++ map cpp_decl (fields self) ++ ["};"]).

(** ** Stream generators *)

(** The loop that opens both generators: the first field wider than the bus
    raises. *)
Fixpoint check_widths (fs : list FieldInfo) (bus_width : Z) : result unit :=
  match fs with
  | [] => Ok tt
  | f :: fs' =>
      if bus_width <? width (dtype f) then
        Raise (ValueError
          ("Field '" +:+ name f +:+ "' has width " +:+ str (width (dtype f))
           +:+ " bits, " +:+ "which exceeds bus width " +:+ str bus_width
           +:+ " bits"))
      else check_widths fs' bus_width
  end.

(** Local variables of the packing loops. *)
Record loop_state : Type := {
  lines : list string;
  ind0 : Z;
  word_count : Z;
  word_var : option string
}.

Definition is_None {A : Type} (o : option A) : bool :=
  match o with None => true | Some _ => false end.

(** [word_var + ".data"] *)
Definition add_suffix (o : option string) (s : string) : result string :=
  match o with
  | Some v => Ok (v +:+ s)
  | None =>
      Raise (TypeError "unsupported operand type(s) for +: 'NoneType' and 'str'")
  end.

Definition append_line (st : loop_state) (l : string) : loop_state :=
  {| lines := lines st ++ [l]; ind0 := ind0 st;
     word_count := word_count st; word_var := word_var st |}.

Definition advance (st : loop_state) (bw : Z) : loop_state :=
  {| lines := lines st; ind0 := ind0 st + bw;
     word_count := word_count st; word_var := word_var st |}.

(** Body of the [for f in self.fields] loop of [gen_stream_read]. *)
Definition read_step (bus_width : Z) (f : FieldInfo) (st : loop_state)
  : result loop_state :=
  let bw := width (dtype f) in
  let st1 :=
    if (bus_width <? ind0 st + bw) || is_None (word_var st) then
      let wv := "w" +:+ str (word_count st) in
      {| lines := lines st ++ ["        Tstream " +:+ wv +:+ " = in.read();"];
         ind0 := 0;
         word_count := word_count st + 1;
         word_var := Some wv |}
    else st in
  word_name <- add_suffix (word_var st1) ".data" ;;
  expr <- read_expr (dtype f) word_name bus_width (ind0 st1) ;;
  Ok (advance
        (append_line st1 ("        " +:+ name f +:+ " = " +:+ expr +:+ ";")) bw).

Fixpoint read_loop (bus_width : Z) (fs : list FieldInfo) (st : loop_state)
  : result loop_state :=
  match fs with
  | [] => Ok st
  | f :: fs' => st' <- read_step bus_width f st ;; read_loop bus_width fs' st'
  end.

Definition read_header (self : DataStructGen) (bus_width : Z) : list string :=
  [ "    template<typename Tstream>";
    "    bool stream_read_" +:+ str bus_width +:+ "(hls::stream<Tstream>& in) {";
    "        constexpr int bus_bits = decltype(Tstream::data)::width;";
    "        static_assert(bus_bits == " +:+ str bus_width +:+ ", "
      +:+ dq +:+ "Only " +:+ str bus_width +:+ "-bit stream supported in "
      +:+ ds_name self +:+ "::stream_read_" +:+ str bus_width +:+ dq +:+ ");";
    EmptyString ].

Definition init_state (header : list string) : loop_state :=
  {| lines := header; ind0 := 0; word_count := 0; word_var := None |}.

(** [gen_stream_read], up to the joining of the lines. *)
Definition gen_stream_read_lines (self : DataStructGen) (bus_width : Z)
  : result (list string) :=
  _ <- check_widths (fields self) bus_width ;;
  st <- read_loop bus_width (fields self)
          (init_state (read_header self bus_width)) ;;
  Ok (lines st
      ++ [ "        bool tlast = " +:+ fmt (word_var st) +:+ ".last;";
           EmptyString;
           "        return tlast;";
           "    }" ]).

(** [gen_stream_read] *)
Definition gen_stream_read (self : DataStructGen) (bus_width : Z)
  : result string :=
  ls <- gen_stream_read_lines self bus_width ;; Ok (join nl ls).

(** First pass of [gen_stream_write]: [(temp_ind, temp_count)] after the
    loop; [total_words] is the second component. *)
Fixpoint count_pass (bus_width : Z) (fs : list FieldInfo)
  (temp_ind temp_count : Z) : Z * Z :=
  match fs with
  | [] => (temp_ind, temp_count)
  | f :: fs' =>
      let bw := width (dtype f) in
      if (bus_width <? temp_ind + bw) || (temp_count =? 0)
      then count_pass bus_width fs' bw (temp_count + 1)
      else count_pass bus_width fs' (temp_ind + bw) temp_count
  end.

Definition total_words (bus_width : Z) (fs : list FieldInfo) : Z :=
  snd (count_pass bus_width fs 0 0).

(** Body of the second loop of [gen_stream_write].  The value [is_last] the
    source computes when it closes a word is never read. *)
Definition write_step (bus_width : Z) (total : Z) (f : FieldInfo)
  (st : loop_state) : result loop_state :=
  let bw := width (dtype f) in
  let st1 :=
    if (bus_width <? ind0 st + bw) || is_None (word_var st) then
      let closing :=
        match word_var st with
        | Some wv =>
            let is_last := word_count st =? total in
            [ "        " +:+ wv +:+ ".last = false;";
              "        out.write(" +:+ wv +:+ ");";
              EmptyString ]
        | None => []
        end in
      let wc := word_count st + 1 in
      let wv := "w" +:+ str (wc - 1) in
      {| lines := lines st ++ closing
                  ++ [ "        Tstream " +:+ wv +:+ ";";
                       "        " +:+ wv +:+ ".data = 0;";
                       "        " +:+ wv +:+ ".keep = -1;";
                       "        " +:+ wv +:+ ".strb = -1;" ];
         ind0 := 0;
         word_count := wc;
         word_var := Some wv |}
    else st in
  word_name <- add_suffix (word_var st1) ".data" ;;
  write_stmt <- write_expr (dtype f) (name f) word_name bus_width (ind0 st1) ;;
  Ok (advance (append_line st1 ("        " +:+ write_stmt)) bw).

Fixpoint write_loop (bus_width : Z) (total : Z) (fs : list FieldInfo)
  (st : loop_state) : result loop_state :=
  match fs with
  | [] => Ok st
  | f :: fs' =>
      st' <- write_step bus_width total f st ;;
      write_loop bus_width total fs' st'
  end.

Definition write_header (self : DataStructGen) (bus_width : Z) : list string :=
  [ "    template<typename Tstream>";
    "    void stream_write_" +:+ str bus_width
      +:+ "(hls::stream<Tstream>& out, bool tlast = true) const {";
    "        constexpr int bus_bits = decltype(Tstream::data)::width;";
    "        static_assert(bus_bits == " +:+ str bus_width +:+ ", "
      +:+ dq +:+ "Only " +:+ str bus_width +:+ "-bit stream supported in "
      +:+ ds_name self +:+ "::stream_write_" +:+ str bus_width +:+ dq +:+ ");";
    EmptyString ].

(** Lines that close the last open word, if any. *)
Definition final_word (wv : option string) : list string :=
  match wv with
  | Some v => [ "        " +:+ v +:+ ".last = tlast;";
                "        out.write(" +:+ v +:+ ");" ]
  | None => []
  end.

(** [gen_stream_write], up to the joining of the lines. *)
Definition gen_stream_write_lines (self : DataStructGen) (bus_width : Z)
  : result (list string) :=
  _ <- check_widths (fields self) bus_width ;;
  let total := total_words bus_width (fields self) in
  st <- write_loop bus_width total (fields self)
          (init_state (write_header self bus_width)) ;;
  Ok (lines st ++ final_word (word_var st) ++ [ "    }" ]).

(** [gen_stream_write] *)
Definition gen_stream_write (self : DataStructGen) (bus_width : Z)
  : result string :=
  ls <- gen_stream_write_lines self bus_width ;; Ok (join nl ls).

(** ** Dispatchers *)

Definition no_widths_assert (self : DataStructGen) : list string :=
  [ "        static_assert(sizeof(Tstream) == 0, ";
    "                     " +:+ dq +:+ "No stream bus widths configured for "
      +:+ ds_name self +:+ dq +:+ ");" ].

Definition write_sig : list string :=
  [ "    template<typename Tstream>";
    "    void stream_write(hls::stream<Tstream>& out, bool tlast = true) const {" ].

Definition read_sig : list string :=
  [ "    template<typename Tstream>";
    "    bool stream_read(hls::stream<Tstream>& in) {" ].

(** The [for i, width in enumerate(self.stream_bus_widths)] loops; [call]
    gives the line that forwards to the width-specific routine. *)
Fixpoint dispatch_branches (call : Z -> string) (i : nat) (ws : list Z)
  : list string :=
  match ws with
  | [] => []
  | w :: ws' =>
      [ match i with
        | O => "        if constexpr (bus_bits == " +:+ str w +:+ ") {"
        | S _ => "        } else if constexpr (bus_bits == " +:+ str w +:+ ") {"
        end;
        call w ]
      ++ dispatch_branches call (S i) ws'
  end.

(** [gen_stream_dispatch]: the pair (stream_write code, stream_read code). *)
Definition gen_stream_dispatch (self : DataStructGen) : string * string :=
  match stream_bus_widths self with
  | [] =>
      let write_lines := write_sig ++ no_widths_assert self ++ [ "    }" ] in
      let read_lines :=
        read_sig ++ no_widths_assert self
        ++ [ "        return false;"; "    }" ] in
      (join nl write_lines, join nl read_lines)
  | w0 :: _ =>
      let ws := stream_bus_widths self in
      let widths_str := join ", " (map str ws) in
      let unsupported :=
        [ "            static_assert(bus_bits == " +:+ str w0 +:+ ", ";
          "                         " +:+ dq
            +:+ "Unsupported bus width. Supported widths: " +:+ widths_str
            +:+ dq +:+ ");" ] in
      let write_lines :=
        write_sig
        ++ [ "        constexpr int bus_bits = decltype(Tstream::data)::width;" ]
        ++ dispatch_branches
             (fun w => "            stream_write_" +:+ str w +:+ "(out, tlast);")
             O ws
        ++ [ "        } else {" ] ++ unsupported
        ++ [ "        }"; "    }" ] in
      let read_lines :=
        read_sig
        ++ [ "        constexpr int bus_bits = decltype(Tstream::data)::width;" ]
        ++ dispatch_branches
             (fun w => "            return stream_read_" +:+ str w +:+ "(in);")
             O ws
        ++ [ "        } else {" ] ++ unsupported
        ++ [ "            return false;"; "        }"; "    }" ] in
      (join nl write_lines, join nl read_lines)
  end.

(** ** Derived operations *)

(** [gen_equality_operator] *)
Definition gen_equality_operator (self : DataStructGen) : string :=
  let comparisons :=
    map (fun f => "(this->" +:+ name f +:+ " == other." +:+ name f +:+ ")")
        (fields self) in
  join nl
    [ "    bool operator==(const " +:+ ds_name self +:+ "& other) const {";
      "        return " +:+ join " && " comparisons +:+ ";";
      "    }" ].

(** The [enumerate] loop of [gen_string_method]. *)
Fixpoint string_items (fs : list FieldInfo) : list string :=
  match fs with
  | [] => []
  | [f] =>
      [ "        oss << " +:+ dq +:+ name f +:+ ": " +:+ dq +:+ " << "
        +:+ name f +:+ ";" ]
  | f :: fs' =>
      ("        oss << " +:+ dq +:+ name f +:+ ": " +:+ dq +:+ " << "
       +:+ name f +:+ " << " +:+ dq +:+ ", " +:+ dq +:+ ";")
      :: string_items fs'
  end.

(** [gen_string_method] *)
Definition gen_string_method (self : DataStructGen) : string :=
  join nl
    ([ "    std::string to_string() const {";
       "        std::ostringstream oss;";
       "        oss << " +:+ dq +:+ "{" +:+ dq +:+ ";" ]
     ++ string_items (fields self)
     ++ [ "        oss << " +:+ dq +:+ "}" +:+ dq +:+ ";";
          "        return oss.str();";
          "    }" ]).

(** ** The include file *)

(** The loop of [gen_include] that collects the preambles, one pass over the
    fields. *)
Fixpoint preamble_lines (fs : list FieldInfo) : list string :=
  match fs with
  | [] => []
  | f :: fs' =>
      match preamble (dtype f) with
      | Some p =>
          if strip_nonempty p
          then ("    " +:+ p) :: EmptyString :: preamble_lines fs'
          else preamble_lines fs'
      | None => preamble_lines fs'
      end
  end.

(** The [for bus_width in bus_widths] loop of [gen_include]. *)
Fixpoint stream_sections (self : DataStructGen) (bus_widths : list Z)
  : result (list string) :=
  match bus_widths with
  | [] => Ok []
  | w :: ws =>
      r <- gen_stream_read self w ;;
      wr <- gen_stream_write self w ;;
      rest <- stream_sections self ws ;;
      Ok ([ r; EmptyString; wr; EmptyString ] ++ rest)
  end.

Definition guard_of (include_file : string) : string :=
  replace_char "-" "_" (replace_char "." "_" (upper include_file)).

(** [gen_include]: the record with the bus widths remembered, and the text
    handed to the file.  Directory creation, removal of an older file and the
    write itself are left to the file system. *)
Definition gen_include (self : DataStructGen) (include_file : option string)
  (bus_widths : option (list Z)) : result (DataStructGen * string) :=
  let include_file :=
    match include_file with
    | Some f => f
    | None => lower (ds_name self) +:+ ".h"
    end in
  let bus_widths :=
    match bus_widths with Some ws => ws | None => [32] end in
  let self :=
    {| ds_name := ds_name self; fields := fields self;
       stream_bus_widths := bus_widths |} in
  let guard_name := guard_of include_file in
  let head :=
    [ "#ifndef " +:+ guard_name;
      "#define " +:+ guard_name;
      EmptyString;
      "#include <hls_stream.h>";
      "#include <ap_int.h>";
      "#include <ap_axi_sdata.h>";
      "#include <string>";
      "#include <sstream>";
      EmptyString;
      "class " +:+ ds_name self +:+ " {";
      "public:";
      EmptyString ]
    ++ preamble_lines (fields self)
    ++ map cpp_decl (fields self)
    ++ [ EmptyString ] in
  streams <- stream_sections self bus_widths ;;
  let '(stream_write_dispatch, stream_read_dispatch) :=
    gen_stream_dispatch self in
  let tail :=
    [ stream_write_dispatch; EmptyString;
      stream_read_dispatch; EmptyString;
      gen_equality_operator self; EmptyString;
      gen_string_method self; EmptyString;
      "};"; EmptyString;
      "#endif // " +:+ guard_name; EmptyString ] in
  Ok (self, join nl (head ++ streams ++ tail)).

(** ** Sample layouts *)

Definition field (n : string) (t : BaseType) : FieldInfo :=
  {| name := n; dtype := t; descr := None; comment_style := "inline" |}.

Definition sample_ab : DataStructGen :=
  DataStructGen_init "Msg"
    (Some [ field "a" (IntType 8 false); field "b" (IntType 16 true) ]).

Definition sample_2020 : DataStructGen :=
  DataStructGen_init "Msg"
    (Some [ field "a" (IntType 20 false); field "b" (IntType 20 false) ]).

(** ** Word placement, as the specification describes it *)

(** Where a field goes: the index of its word, its bit offset in that word,
    and whether the field opened the word. *)
Record placement : Type := {
  pl_field : FieldInfo;
  pl_word : Z;
  pl_offset : Z;
  pl_opens : bool
}.

(** Greedy single pass in declaration order.  [cur] is the open word, as
    (index, running offset), or [None] when no word is open: a field goes to
    the running offset when a word is open and
    [running_offset + field_width <= word_width]; otherwise a new word is
    opened and the field goes to offset 0. *)
Fixpoint pack_from (word_width : Z) (cur : option (Z * Z))
  (fs : list FieldInfo) : list placement :=
  match fs with
  | [] => []
  | f :: fs' =>
      let w := width (dtype f) in
      match cur with
      | Some (idx, off) =>
          if off + w <=? word_width then
            {| pl_field := f; pl_word := idx; pl_offset := off;
               pl_opens := false |}
            :: pack_from word_width (Some (idx, off + w)) fs'
          else
            {| pl_field := f; pl_word := idx + 1; pl_offset := 0;
               pl_opens := true |}
            :: pack_from word_width (Some (idx + 1, w)) fs'
      | None =>
          {| pl_field := f; pl_word := 0; pl_offset := 0; pl_opens := true |}
          :: pack_from word_width (Some (0, w)) fs'
      end
  end.

Definition pack (word_width : Z) (fs : list FieldInfo) : list placement :=
  pack_from word_width None fs.

(** The knapsack-arrival count: items arrive in order, [used] is the fill of
    the open knapsack, and an arrival is counted whenever no knapsack is open
    or the running fill would exceed the capacity. *)
Fixpoint arrivals_from (capacity : Z) (used : option Z) (fs : list FieldInfo)
  : Z :=
  match fs with
  | [] => 0
  | f :: fs' =>
      let w := width (dtype f) in
      match used with
      | Some u =>
          if capacity <? u + w
          then 1 + arrivals_from capacity (Some w) fs'
          else arrivals_from capacity (Some (u + w)) fs'
      | None => 1 + arrivals_from capacity (Some w) fs'
      end
  end.

Definition knapsack_arrival_count (capacity : Z) (fs : list FieldInfo) : Z :=
  arrivals_from capacity None fs.



Definition word_name_of (p : placement) : string := "w" +:+ str (pl_word p).

(** The decode and encode requests made for a placed field. *)
Definition decode_of (word_width : Z) (p : placement) : result string :=
  read_expr (dtype (pl_field p)) (word_name_of p +:+ ".data")
            word_width (pl_offset p).

Definition encode_of (word_width : Z) (p : placement) : result string :=
  write_expr (dtype (pl_field p)) (name (pl_field p))
             (word_name_of p +:+ ".data") word_width (pl_offset p).

Definition text_of (r : result string) : string :=
  match r with
  | Ok s => s
  | Raise _ => EmptyString
  end.

Fixpoint last_opt {A : Type} (l : list A) : option A :=
  match l with
  | [] => None
  | [a] => Some a
  | _ :: l' => last_opt l'
  end.

(** The word variable in scope after the last field. *)
Definition final_var (ps : list placement) : option string :=
  option_map word_name_of (last_opt ps).

(** Lines of the read routine for one placed field. *)
Definition read_chunk (word_width : Z) (p : placement) : list string :=
  (if pl_opens p
   then [ "        Tstream " +:+ word_name_of p +:+ " = in.read();" ]
   else [])
  ++ [ "        " +:+ name (pl_field p) +:+ " = "
       +:+ text_of (decode_of word_width p) +:+ ";" ].

Definition open_lines (wv : string) : list string :=
  [ "        Tstream " +:+ wv +:+ ";";
    "        " +:+ wv +:+ ".data = 0;";
    "        " +:+ wv +:+ ".keep = -1;";
    "        " +:+ wv +:+ ".strb = -1;" ].

Definition emit_lines (wv flag : string) : list string :=
  [ "        " +:+ wv +:+ ".last = " +:+ flag +:+ ";";
    "        out.write(" +:+ wv +:+ ");" ].

Definition encode_line (word_width : Z) (p : placement) : string :=
  "        " +:+ text_of (encode_of word_width p).

(** Lines of the write routine for one placed field: a field that opens a
    word first closes the word before it, if there is one. *)
Definition write_chunk (word_width : Z) (p : placement) : list string :=
  (if pl_opens p then
     (if 0 <? pl_word p
      then emit_lines ("w" +:+ str (pl_word p - 1)) "false" ++ [ EmptyString ]
      else [])
     ++ open_lines (word_name_of p)
   else [])
  ++ [ encode_line word_width p ].

(** The placements word by word: a field that opens a word starts a group. *)
Definition head_opens (ps : list placement) : bool :=
  match ps with
  | q :: _ => pl_opens q
  | [] => true
  end.

Fixpoint group_words (ps : list placement) : list (list placement) :=
  match ps with
  | [] => []
  | p :: ps' =>
      match group_words ps' with
      | g :: gs => if head_opens ps' then [p] :: g :: gs else (p :: g) :: gs
      | [] => [[p]]
      end
  end.

(** The body of a write routine word by word, the words numbered from [k]:
    the word is declared and zeroed, its fields are encoded, and it is
    emitted, with the end-of-message flag [false] except on the last word,
    which takes [tlast]. *)
Fixpoint render_words (word_width : Z) (k : Z) (ws : list (list placement))
  : list string :=
  match ws with
  | [] => []
  | g :: ws' =>
      let wv := "w" +:+ str k in
      open_lines wv ++ map (encode_line word_width) g
      ++ match ws' with
         | [] => emit_lines wv "tlast"
         | _ :: _ =>
             emit_lines wv "false" ++ [ EmptyString ]
             ++ render_words word_width (k + 1) ws'
         end
  end.

(** An emission call is a line [out.write(...)] at statement indentation. *)
Definition is_emission (l : string) : bool :=
  String.prefix "        out.write(" l.

Definition count_emissions (ls : list string) : nat :=
  List.length (filter is_emission ls).

(** ** Enumerations, as the specification describes them *)

(** The auto-counter after all entries: it starts at 0, a bare label takes
    the counter and advances it by one, an explicit pair resets it to
    [value + 1]. *)
Definition counter_step (c : Z) (e : entry) : Z :=
  match e with
  | EStr _ => c + 1
  | ETuple _ v => v + 1
  | EOther => c
  end.

Definition next_auto_value (es : list entry) : Z :=
  fold_left counter_step es 0.

Definition is_label_or_pair (e : entry) : bool :=
  match e with
  | EOther => false
  | _ => true
  end.

(** ** Float texts, as the specification describes them *)

(** Decode through the slice [[i+31, i]]. *)
Definition float_decode_slice (word_name : string) (i : Z) : string :=
  float_union +:+ nl
  +:+ "        conv.u = " +:+ word_name +:+ ".range(" +:+ str (i + 31) +:+ ", "
  +:+ str i +:+ ");" +:+ nl
  +:+ "        /* assign to variable */ conv.f".

(** Decode from the whole word. *)
Definition float_decode_whole (word_name : string) : string :=
  float_union +:+ nl
  +:+ "        conv.u = " +:+ word_name +:+ ";" +:+ nl
  +:+ "        /* assign to variable */ conv.f".

(** Encode into the slice [[i+31, i]]. *)
Definition float_encode_slice (var_name word_name : string) (i : Z) : string :=
  float_union +:+ nl
  +:+ "        conv.f = " +:+ var_name +:+ ";" +:+ nl
  +:+ "        " +:+ word_name +:+ ".range(" +:+ str (i + 31) +:+ ", "
  +:+ str i +:+ ") = conv.u;".

(** ** Occurrences in the generated text *)

Definition contains (sub s : string) : Prop :=
  exists pre post, s = pre +:+ sub +:+ post.

(** Number of positions of [s] at which [sub] starts. *)
Fixpoint count_substr (sub s : string) : nat :=
  match s with
  | EmptyString => if String.prefix sub EmptyString then 1%nat else 0%nat
  | String _ s' =>
      ((if String.prefix sub s then 1 else 0) + count_substr sub s')%nat
  end.

(** The field's type has the auxiliary declaration [p]. *)
Definition has_preamble (p : string) (f : FieldInfo) : bool :=
  match preamble (dtype f) with
  | Some q => String.eqb p q
  | None => false
  end.

(** Lines before the auxiliary declarations in the include file. *)
Definition include_prologue (guard_name class_name : string) : list string :=
  [ "#ifndef " +:+ guard_name;
    "#define " +:+ guard_name;
    EmptyString;
    "#include <hls_stream.h>";
    "#include <ap_int.h>";
    "#include <ap_axi_sdata.h>";
    "#include <string>";
    "#include <sstream>";
    EmptyString;
    "class " +:+ class_name +:+ " {";
    "public:";
    EmptyString ].

(** Every field fits a word of each of the given widths. *)
Definition fits_all (fs : list FieldInfo) (ws : list Z) : Prop :=
  Forall (fun w => Forall (fun f => width (dtype f) <= w) fs) ws.

(** ** More sample layouts *)

Definition color : BaseType :=
  EnumType "Color" [ ("RED", 0); ("GREEN", 1); ("BLUE", 2) ] 2.

Definition sample_enum2 : DataStructGen :=
  DataStructGen_init "Pixel"
    (Some [ field "fg" color; field "bg" color ]).

Definition sample_mixed : DataStructGen :=
  DataStructGen_init "Mixed"
    (Some [ field "a" (IntType 8 false); field "x" FloatType;
            field "c" color; field "b" (IntType 16 true) ]).

(** The field is no wider than a word. *)
Definition fits (word_width : Z) (f : FieldInfo) : Prop :=
  width (dtype f) <= word_width.

(** The field has a width of zero bits or more. *)
Definition nonneg (f : FieldInfo) : Prop := 0 <= width (dtype f).

(** ** Loop states and the open word *)

(** The open word after the fields [fs] have been placed. *)
Fixpoint cur_after (word_width : Z) (cur : option (Z * Z))
  (fs : list FieldInfo) : option (Z * Z) :=
  match fs with
  | [] => cur
  | f :: fs' =>
      let w := width (dtype f) in
      match cur with
      | Some (idx, off) =>
          if off + w <=? word_width
          then cur_after word_width (Some (idx, off + w)) fs'
          else cur_after word_width (Some (idx + 1, w)) fs'
      | None => cur_after word_width (Some (0, w)) fs'
      end
  end.

Definition cur_ind0 (cur : option (Z * Z)) : Z :=
  match cur with Some (_, off) => off | None => 0 end.

Definition cur_count (cur : option (Z * Z)) : Z :=
  match cur with Some (idx, _) => idx + 1 | None => 0 end.

Definition cur_var (cur : option (Z * Z)) : option string :=
  match cur with Some (idx, _) => Some ("w" +:+ str idx) | None => None end.

(** The generator state that stands for the open word [cur]. *)
Definition state_at (ls : list string) (cur : option (Z * Z)) : loop_state :=
  {| lines := ls; ind0 := cur_ind0 cur;
     word_count := cur_count cur; word_var := cur_var cur |}.

Definition cur_wf (cur : option (Z * Z)) : Prop :=
  match cur with Some (idx, _) => 0 <= idx | None => True end.

(** Placements that continue word [k] and then open the words after it, one
    by one. *)
Fixpoint chain (k : Z) (ps : list placement) : Prop :=
  match ps with
  | [] => True
  | q :: ps' =>
      (pl_opens q = false /\ pl_word q = k /\ chain k ps')
      \/ (pl_opens q = true /\ pl_word q = k + 1 /\ chain (k + 1) ps')
  end.

(** The groups are the words [k], [k+1], ... in order, none of them empty. *)
Fixpoint words_numbered (k : Z) (ws : list (list placement)) : Prop :=
  match ws with
  | [] => True
  | g :: ws' =>
      g <> [] /\ Forall (fun p => pl_word p = k) g
      /\ words_numbered (k + 1) ws'
  end.

(** The word indices [k], [k+1], ..., [n] of them. *)
Fixpoint word_indices (k : Z) (n : nat) : list Z :=
  match n with
  | O => []
  | S n' => k :: word_indices (k + 1) n'
  end.

Definition emission_of (k : Z) : string :=
  "        out.write(" +:+ "w" +:+ str k +:+ ");".

(** The auxiliary declarations the fields contribute, one per field whose
    type has a non-blank one, in field order. *)
Definition aux_decls (fs : list FieldInfo) : list string :=
  flat_map (fun f => match preamble (dtype f) with
                     | Some p => if strip_nonempty p then [p] else []
                     | None => []
                     end) fs.

(** The bus widths [gen_include] works with. *)
Definition widths_or_default (bus_widths : option (list Z)) : list Z :=
  match bus_widths with Some ws => ws | None => [32] end.

(** The declaration shared by the two fields of [sample_enum2]. *)
Definition color_decl : string :=
  match preamble color with Some p => p | None => EmptyString end.

(** ** Further notions about layouts *)

(** Boolean form of [fits]. *)
Definition fitsb (word_width : Z) (f : FieldInfo) : bool :=
  width (dtype f) <=? word_width.

(** Sum of the widths of the fields. *)
Definition total_bits (fs : list FieldInfo) : Z :=
  fold_right (fun f acc => width (dtype f) + acc) 0 fs.

Fixpoint string_forall (P : ascii -> bool) (s : string) : bool :=
  match s with
  | EmptyString => true
  | String c s' => P c && string_forall P s'
  end.

(** A character an include guard never holds: a dot, a dash or a lower-case
    letter. *)
Definition guard_clean (c : ascii) : bool :=
  let n := nat_of_ascii c in
  negb (Ascii.eqb c ".") && negb (Ascii.eqb c "-")
  && negb ((97 <=? n) && (n <=? 122))%nat.

(** The values the entries of an enumeration are stored with, the counter
    starting at [c]. *)
Fixpoint assign_values (es : list entry) (c : Z) : list (string * Z) :=
  match es with
  | [] => []
  | EStr e :: es' => (e, c) :: assign_values es' (c + 1)
  | ETuple n v :: es' => (n, v) :: assign_values es' (v + 1)
  | EOther :: es' => assign_values es' c
  end.

Definition is_float (t : BaseType) : bool :=
  match t with FloatType => true | _ => false end.

(** * Waveform signals: [xilinxutils/vcd.py]

    The parts of the viewer that work on lists of values.  Times are
    floating-point numbers in the source; here they are values of a type [T]
    on which only the comparison [<=] the source uses is needed, given as
    [leb].  The arrays of unsigned 32-bit numbers are lists of [Z]. *)

Inductive vcd_exn : Type :=
| IndexError
| AttributeError.

Inductive vresult (A : Type) : Type :=
| Done (a : A)
| Fail (e : vcd_exn).

Arguments Done {A} a.
Arguments Fail {A} e.

Definition vbind {A B : Type} (r : vresult A) (k : A -> vresult B)
  : vresult B :=
  match r with
  | Done a => k a
  | Fail e => Fail e
  end.

Notation "x <~ r ;; k" := (vbind r (fun x => k))
  (at level 61, r at next level, right associativity).

(** [sub in s] *)
Fixpoint substr_b (sub s : string) : bool :=
  match s with
  | EmptyString => String.prefix sub EmptyString
  | String _ s' => String.prefix sub s || substr_b sub s'
  end.

(** [s.split(sep)] for a one-character separator. *)
Fixpoint split_on (sep : ascii) (s : string) : list string :=
  match s with
  | EmptyString => [ EmptyString ]
  | String c s' =>
      if Ascii.eqb c sep then EmptyString :: split_on sep s'
      else match split_on sep s' with
           | h :: t => String c h :: t
           | [] => [ String c EmptyString ]
           end
  end.

(** [l[-1]] of a list that is not empty. *)
Definition last_piece (l : list string) : string := List.last l EmptyString.

(** Attributes of [SigInfo]; the scale factor and the display values are
    not part of this model. *)
Record SigInfo (T : Type) : Type := {
  sig_name : string;
  two_level : bool;
  vcd_fmt : string;
  numeric_type : string;
  numeric_fmt_str : string;
  is_clock : bool;
  times : list T;
  values : list string;
  short_name : string;
  numeric_values : option (list Z)
}.

Arguments sig_name {T} _.
Arguments two_level {T} _.
Arguments vcd_fmt {T} _.
Arguments numeric_type {T} _.
Arguments numeric_fmt_str {T} _.
Arguments is_clock {T} _.
Arguments times {T} _.
Arguments values {T} _.
Arguments short_name {T} _.
Arguments numeric_values {T} _.

(** [v in {'x', 'X', 'z', 'Z'}] *)
Definition is_unknown (v : string) : bool :=
  String.eqb v "x" || String.eqb v "X" || String.eqb v "z"
  || String.eqb v "Z".

(** [v in {'0', '1'}] *)
Definition is_bit (v : string) : bool :=
  String.eqb v "0" || String.eqb v "1".

(** [set(v).issubset({'0', '1'})] *)
Definition is_bits (v : string) : bool :=
  string_forall (fun c => Ascii.eqb c "0" || Ascii.eqb c "1") v.

(** [SigInfo.set_format] *)
Definition set_format {T : Type} (s : SigInfo T) : SigInfo T :=
  let filtered := filter (fun v => negb (is_unknown v)) (values s) in
  let s1 :=
    if forallb is_bit filtered then
      {| sig_name := sig_name s; two_level := true; vcd_fmt := "binary";
         numeric_type := "int"; numeric_fmt_str := "%d";
         is_clock := is_clock s; times := times s; values := values s;
         short_name := short_name s; numeric_values := numeric_values s |}
    else if forallb is_bits filtered then
      {| sig_name := sig_name s; two_level := two_level s;
         vcd_fmt := "binary"; numeric_type := "int";
         numeric_fmt_str := numeric_fmt_str s;
         is_clock := is_clock s; times := times s; values := values s;
         short_name := short_name s; numeric_values := numeric_values s |}
    else s in
  if truthy (sig_name s1) then
    let name_lower := lower (sig_name s1) in
    if substr_b "clock" name_lower || substr_b "clk" name_lower then
      {| sig_name := sig_name s1; two_level := two_level s1;
         vcd_fmt := vcd_fmt s1; numeric_type := numeric_type s1;
         numeric_fmt_str := numeric_fmt_str s1;
         is_clock := true; times := times s1; values := values s1;
         short_name := short_name s1; numeric_values := numeric_values s1 |}
    else s1
  else s1.

(** [SigInfo.__init__]; [scale t] stands for [t / self.time_scale]. *)
Definition SigInfo_init {T : Type} (scale : Z -> T) (nm : string)
  (tv : list (Z * string)) : SigInfo T :=
  set_format
    {| sig_name := nm; two_level := false; vcd_fmt := "str";
       numeric_type := "str"; numeric_fmt_str := "%X"; is_clock := false;
       times := map (fun p => scale (fst p)) tv;
       values := map snd tv;
       short_name := last_piece (split_on "." nm);
       numeric_values := None |}.

(** [extract_clock_times] *)
Definition extract_clock_times {T : Type} (sig_info : SigInfo T) : list T :=
  map fst
      (filter (fun tv => String.eqb (snd tv) "1")
              (combine (times sig_info) (values sig_info))).

(** The [while] loop of [resample_signal] for one clock time: [ts] and [vs]
    are [sig_times] and [sig_values] from index [j] on. *)
Fixpoint catch_up {T : Type} (leb : T -> T -> bool) (t_clk : T)
  (ts : list T) (vs : list Z) (current_val : Z)
  : vresult (list T * list Z * Z) :=
  match ts with
  | [] => Done ([], vs, current_val)
  | t :: ts' =>
      if leb t t_clk then
        match vs with
        | v :: vs' => catch_up leb t_clk ts' vs' v
        | [] => Fail IndexError
        end
      else Done (ts, vs, current_val)
  end.

(** The [for] loop of [resample_signal]. *)
Fixpoint resample_loop {T : Type} (leb : T -> T -> bool) (clk_times : list T)
  (ts : list T) (vs : list Z) (current_val : Z) : vresult (list Z) :=
  match clk_times with
  | [] => Done []
  | t_clk :: rest =>
      st <~ catch_up leb t_clk ts vs current_val ;;
      let '(ts', vs', current_val') := st in
      sampled <~ resample_loop leb rest ts' vs' current_val' ;;
      Done (current_val' :: sampled)
  end.

(** [resample_signal] *)
Definition resample_signal {T : Type} (leb : T -> T -> bool)
  (sig_info : SigInfo T) (clk_times : list T) : vresult (list Z) :=
  match numeric_values sig_info with
  | None => Fail AttributeError
  | Some sig_values =>
      match sig_values with
      | [] => Fail IndexError
      | v0 :: _ => resample_loop leb clk_times (times sig_info) sig_values v0
      end
  end.

(** One burst of [extract_axis_bursts]. *)
Record burst (T : Type) : Type := {
  b_data : list Z;
  b_start_idx : Z;
  b_beat_type : list Z;
  b_tstart : T
}.

Arguments b_data {T} _.
Arguments b_start_idx {T} _.
Arguments b_beat_type {T} _.
Arguments b_tstart {T} _.

(** [arr[i]] *)
Definition get {A : Type} (arr : list A) (i : nat) : vresult A :=
  match nth_error arr i with
  | Some a => Done a
  | None => Fail IndexError
  end.

(** Truth value of an unsigned number. *)
Definition nonzero (v : Z) : bool := negb (v =? 0).

(** [.astype(np.uint32)] on one element. *)
Definition uint32 (v : Z) : Z := v mod 2 ^ 32.

Definition add_beat {T : Type} (b : burst T) (kind : Z) : burst T :=
  {| b_data := b_data b; b_start_idx := b_start_idx b;
     b_beat_type := b_beat_type b ++ [kind]; b_tstart := b_tstart b |}.

(** Body of the [for i in range(len(tdata))] loop of
    [extract_axis_bursts]; the state is [(current_burst, bursts)]. *)
Definition burst_step {T : Type} (clk_times : list T)
  (tdata tvalid tready tlast : list Z) (i : nat)
  (st : option (burst T) * list (burst T))
  : vresult (option (burst T) * list (burst T)) :=
  let '(current_burst, bursts) := st in
  v <~ get tvalid i ;;
  handshake <~ (if nonzero v then r <~ get tready i ;; Done (nonzero r)
                else Done false) ;;
  if handshake then
    cur <~ match current_burst with
           | Some b => Done b
           | None =>
               t <~ get clk_times i ;;
               Done {| b_data := []; b_start_idx := Z.of_nat i;
                       b_beat_type := []; b_tstart := t |}
           end ;;
    d <~ get tdata i ;;
    let cur :=
      {| b_data := b_data cur ++ [d]; b_start_idx := b_start_idx cur;
         b_beat_type := b_beat_type cur ++ [0]; b_tstart := b_tstart cur |} in
    l <~ get tlast i ;;
    if nonzero l then
      Done (None,
            bursts
            ++ [ {| b_data := map uint32 (b_data cur);
                    b_start_idx := b_start_idx cur;
                    b_beat_type := b_beat_type cur;
                    b_tstart := b_tstart cur |} ])
    else Done (Some cur, bursts)
  else
    match current_burst with
    | Some b =>
        if negb (nonzero v) then Done (Some (add_beat b 1), bursts)
        else
          r <~ get tready i ;;
          if negb (nonzero r) then Done (Some (add_beat b 2), bursts)
          else Done (Some b, bursts)
    | None => Done (None, bursts)
    end.

Fixpoint burst_loop {T : Type} (clk_times : list T)
  (tdata tvalid tready tlast : list Z) (indices : list nat)
  (st : option (burst T) * list (burst T))
  : vresult (option (burst T) * list (burst T)) :=
  match indices with
  | [] => Done st
  | i :: rest =>
      st' <~ burst_step clk_times tdata tvalid tready tlast i st ;;
      burst_loop clk_times tdata tvalid tready tlast rest st'
  end.

(** The bursts [extract_axis_bursts] returns, for the clock signal and the
    four stream signals its look-ups found.  The clock period it returns
    beside them, a median of differences of times, is not part of this
    model. *)
Definition axis_bursts {T : Type} (leb : T -> T -> bool)
  (clk_sig d_sig v_sig r_sig l_sig : SigInfo T) : vresult (list (burst T)) :=
  let clk_times := extract_clock_times clk_sig in
  tdata <~ resample_signal leb d_sig clk_times ;;
  tvalid <~ resample_signal leb v_sig clk_times ;;
  tready <~ resample_signal leb r_sig clk_times ;;
  tlast <~ resample_signal leb l_sig clk_times ;;
  st <~ burst_loop clk_times tdata tvalid tready tlast
          (seq 0 (List.length tdata)) (None, []) ;;
  Done (snd st).

(** ** Waveform signals, described independently *)

(** The value a signal holds at time [t]: the value of the last event at or
    before [t], or [default] when there is none. *)
Definition held_value {T : Type} (leb : T -> T -> bool) (t : T)
  (events : list (T * Z)) (default : Z) : Z :=
  fold_left (fun cur ev => if leb (fst ev) t then snd ev else cur)
            events default.

(** Times in non-decreasing order. *)
Fixpoint ascending {T : Type} (leb : T -> T -> bool) (l : list T) : Prop :=
  match l with
  | [] => True
  | a :: l' => Forall (fun b => leb a b = true) l' /\ ascending leb l'
  end.

(** One clock cycle of a stream: data, valid, ready, last. *)
Definition beat : Type := (Z * Z * Z * Z)%type.

Definition beat_data (b : beat) : Z := fst (fst (fst b)).
Definition beat_transfer (b : beat) : bool :=
  nonzero (snd (fst (fst b))) && nonzero (snd (fst b)).
Definition beat_closes (b : beat) : bool := beat_transfer b && nonzero (snd b).

(** The runs of transferred data, each ended by a transfer with [tlast];
    [acc] is the run in progress. *)
Fixpoint data_runs (beats : list beat) (acc : list Z) : list (list Z) :=
  match beats with
  | [] => []
  | b :: rest =>
      if beat_transfer b then
        if nonzero (snd b) then (acc ++ [beat_data b]) :: data_runs rest []
        else data_runs rest (acc ++ [beat_data b])
      else data_runs rest acc
  end.

(** The four arrays side by side. *)
Fixpoint zip_beats (tdata tvalid tready tlast : list Z) : list beat :=
  match tdata, tvalid, tready, tlast with
  | d :: ds, v :: vs, r :: rs, l :: ls =>
      (d, v, r, l) :: zip_beats ds vs rs ls
  | _, _, _, _ => []
  end.

(** The data of the burst in progress. *)
Definition pending {T : Type} (current : option (burst T)) : list Z :=
  match current with
  | Some b => b_data b
  | None => []
  end.

(** What [burst_step] does at index [i] once the five array elements are
    at hand: the clock time [c] and the beat [(d, v, r, l)]. *)
Definition beat_step {T : Type} (i : nat) (c : T) (b : beat)
  (st : option (burst T) * list (burst T))
  : option (burst T) * list (burst T) :=
  let '(d, v, r, l) := b in
  let '(current, bursts) := st in
  if nonzero v && nonzero r then
    let cur0 :=
      match current with
      | Some b0 => b0
      | None => {| b_data := []; b_start_idx := Z.of_nat i;
                   b_beat_type := []; b_tstart := c |}
      end in
    if nonzero l then
      (None,
       bursts ++ [ {| b_data := map uint32 (b_data cur0 ++ [d]);
                      b_start_idx := b_start_idx cur0;
                      b_beat_type := b_beat_type cur0 ++ [0];
                      b_tstart := b_tstart cur0 |} ])
    else
      (Some {| b_data := b_data cur0 ++ [d];
               b_start_idx := b_start_idx cur0;
               b_beat_type := b_beat_type cur0 ++ [0];
               b_tstart := b_tstart cur0 |},
       bursts)
  else
    match current with
    | Some b0 =>
        (Some (add_beat b0 (if nonzero v then 2 else 1)), bursts)
    | None => (None, bursts)
    end.

Fixpoint beat_loop {T : Type} (i : nat) (cs : list T) (beats : list beat)
  (st : option (burst T) * list (burst T)) {struct beats}
  : option (burst T) * list (burst T) :=
  match beats, cs with
  | b :: beats', c :: cs' => beat_loop (S i) cs' beats' (beat_step i c b st)
  | _, _ => st
  end.

(** What holds of a burst in progress when the loop is at index [i], and of
    a finished burst: it started at a transfer at index [start_idx], whose
    clock time is [tstart]; its beat types record one transfer per datum;
    and it spans the indices from [start_idx] on. *)
Definition burst_shape {T : Type} (clk_times : list T) (b : burst T) : Prop :=
  0 <= b_start_idx b
  /\ nth_error clk_times (Z.to_nat (b_start_idx b)) = Some (b_tstart b)
  /\ b_data b <> []
  /\ hd_error (b_beat_type b) = Some 0
  /\ List.length (filter (Z.eqb 0) (b_beat_type b)) = List.length (b_data b)
  /\ Forall (fun k => k = 0 \/ k = 1 \/ k = 2) (b_beat_type b).

Definition open_shape {T : Type} (clk_times : list T) (i : nat)
  (current : option (burst T)) : Prop :=
  match current with
  | Some b =>
      burst_shape clk_times b
      /\ (Z.to_nat (b_start_idx b) + List.length (b_beat_type b) = i)%nat
  | None => True
  end.

Definition closed_shape {T : Type} (clk_times : list T) (b : burst T)
  : Prop :=
  burst_shape clk_times b
  /\ List.last (b_beat_type b) 1 = 0
  /\ (Z.to_nat (b_start_idx b) + List.length (b_beat_type b)
      <= List.length clk_times)%nat
  /\ Forall (fun x => 0 <= x < 2 ^ 32) (b_data b).

(** A signal fit for resampling: numeric values computed, one per event and
    at least one, and event times in non-decreasing order. *)
Definition ready_signal {T : Type} (leb : T -> T -> bool) (s : SigInfo T)
  : Prop :=
  exists v0 vs,
    numeric_values s = Some (v0 :: vs)
    /\ List.length (times s) = List.length (v0 :: vs)
    /\ ascending leb (times s).

(** The values a signal holds at the given times. *)
Definition samples_of {T : Type} (leb : T -> T -> bool) (s : SigInfo T)
  (clk_times : list T) : list Z :=
  match numeric_values s with
  | Some (v0 :: vs) =>
      map (fun t => held_value leb t (combine (times s) (v0 :: vs)) v0)
          clk_times
  | _ => []
  end.

(** A clock with rising edges at 5, 15, 25, 35. *)
Definition sample_clock : SigInfo Z :=
  {| sig_name := "tb.clk"; two_level := true; vcd_fmt := "binary";
     numeric_type := "int"; numeric_fmt_str := "%d"; is_clock := true;
     times := [0; 5; 10; 15; 20; 25; 30; 35];
     values := ["0"; "1"; "0"; "1"; "0"; "1"; "0"; "1"];
     short_name := "clk";
     numeric_values := Some [0; 1; 0; 1; 0; 1; 0; 1] |}.

(** No character of the string is [sep]. *)
Definition free_of (sep : ascii) (s : string) : bool :=
  string_forall (fun c => negb (Ascii.eqb c sep)) s.

(** [suf] is what is left of [arr] from index [i] on. *)
Definition suffix_at {A : Type} (arr : list A) (i : nat) (suf : list A)
  : Prop :=
  exists pre, arr = pre ++ suf /\ List.length pre = i.

(** [leb] is transitive. *)
Definition transitive {T : Type} (leb : T -> T -> bool) : Prop :=
  forall a b c, leb a b = true -> leb b c = true -> leb a c = true.

(** A small signal: events at times 0, 10, 20, 30. *)
Definition sample_signal : SigInfo Z :=
  {| sig_name := "tb.dut.tdata[31:0]"; two_level := false;
     vcd_fmt := "binary"; numeric_type := "int"; numeric_fmt_str := "%X";
     is_clock := false; times := [0; 10; 20; 30];
     values := ["0"; "101"; "x"; "11"]; short_name := "tdata[31:0]";
     numeric_values := Some [0; 5; 0; 3] |}.

(** ** Layouts with a negative width *)




(** The text is ASCII. *)
Definition ascii_only (s : string) : bool :=
  string_forall (fun c => (nat_of_ascii c <? 128)%nat) s.

(** * Properties *)

(** ** Text *)

Lemma append_assoc (a b c : string) : (a +:+ b) +:+ c = a +:+ (b +:+ c).
Proof. induction a as [|ch a IH]; simpl; [reflexivity|now rewrite IH]. Qed.

Lemma append_nil_r (a : string) : a +:+ EmptyString = a.
Proof. induction a as [|ch a IH]; simpl; [reflexivity|now rewrite IH]. Qed.

Ltac norm_text := repeat rewrite append_assoc.

(** ** Per-field decode and encode *)

Lemma read_expr_impl_fits (t : BaseType) (wn : string) (w i : Z) :
  i + width t <= w -> returns (read_expr_impl t wn w i) = true.
Proof.
  intros Hfit. destruct t as [bw sg| |en ee bw]; simpl in *.
  - destruct ((bw =? w) && (i =? 0)); reflexivity.
  - destruct (Z.ltb_spec w (i + 32)) as [Hlt|Hge]; [lia|reflexivity].
  - destruct ((bw =? w) && (i =? 0)); reflexivity.
Qed.

Lemma write_expr_impl_fits (t : BaseType) (vn wn : string) (w i : Z) :
  i + width t <= w -> returns (write_expr_impl t vn wn w i) = true.
Proof.
  intros Hfit. destruct t as [bw sg| |en ee bw]; simpl in *.
  - destruct ((bw =? w) && (i =? 0)); reflexivity.
  - destruct (Z.ltb_spec w (i + 32)) as [Hlt|Hge]; [lia|reflexivity].
  - destruct ((bw =? w) && (i =? 0)); reflexivity.
Qed.

Lemma read_expr_fits (t : BaseType) (wn : string) (w i : Z) :
  i + width t <= w -> returns (read_expr t wn w i) = true.
Proof.
  intros Hfit. unfold read_expr.
  destruct (Z.ltb_spec w (width t + i)) as [Hlt|Hge]; [lia|].
  now apply read_expr_impl_fits.
Qed.

Lemma write_expr_fits (t : BaseType) (vn wn : string) (w i : Z) :
  i + width t <= w -> returns (write_expr t vn wn w i) = true.
Proof.
  intros Hfit. unfold write_expr.
  destruct (Z.ltb_spec w (width t + i)) as [Hlt|Hge]; [lia|].
  now apply write_expr_impl_fits.
Qed.

Lemma returns_text_of (r : result string) :
  returns r = true -> r = Ok (text_of r).
Proof. destruct r; simpl; [reflexivity|discriminate]. Qed.

(** C5: for each of the three type descriptors, any word width [w] and bit
    offset [i], [read_expr] and [write_expr] raise the width-overflow
    [ValueError] exactly when [i + width > w], and return an expression or
    statement otherwise. *)
Theorem expr_overflow_exactly (t : BaseType) (var_name word_name : string)
  (w i : Z) :
  (if w <? i + width t
   then read_expr t word_name w i = Raise (ValueError overflow_msg)
   else returns (read_expr t word_name w i) = true)
  /\
  (if w <? i + width t
   then write_expr t var_name word_name w i = Raise (ValueError overflow_msg)
   else returns (write_expr t var_name word_name w i) = true).
Proof.
  destruct (Z.ltb_spec w (i + width t)) as [Hlt|Hge].
  - unfold read_expr, write_expr.
    destruct (Z.ltb_spec w (width t + i)) as [_|Hge]; [split; reflexivity|lia].
  - split; [apply read_expr_fits | apply write_expr_fits]; lia.
Qed.

(** ** Float *)

(** C2, as the code has it: for every word name, word width [w] and offset
    [i] with [i + 32 <= w], the float encode always writes the bit pattern
    into the slice [[i+31, i]]; the float decode reads the slice [[i+31, i]]
    unless the float fills the whole word ([w = 32], [i = 0]), where it reads
    the word itself. *)
Theorem float_slices (var_name word_name : string) (w i : Z)
  (Hfit : i + 32 <= w) :
  write_expr FloatType var_name word_name w i
    = Ok (float_encode_slice var_name word_name i)
  /\ read_expr FloatType word_name w i
    = Ok (if (w =? 32) && (i =? 0) then float_decode_whole word_name
          else float_decode_slice word_name i).
Proof.
  unfold write_expr, read_expr, write_expr_impl, read_expr_impl; simpl width.
  destruct (Z.ltb_spec w (32 + i)) as [Hlt|_]; [lia|].
  destruct (Z.ltb_spec w (i + 32)) as [Hlt|_]; [lia|].
  unfold float_encode_slice, float_decode_slice, float_decode_whole, range_of.
  replace (i + 32 - 1) with (i + 31) by lia.
  rewrite (Z.eqb_sym 32 w).
  split; [norm_text; reflexivity|].
  destruct ((w =? 32) && (i =? 0)); norm_text; reflexivity.
Qed.

Lemma float_slices_witness :
  write_expr FloatType "x" "w0.data" 64 8
    = Ok (float_encode_slice "x" "w0.data" 8)
  /\ read_expr FloatType "w0.data" 64 8
    = Ok (if (64 =? 32) && (8 =? 0) then float_decode_whole "w0.data"
          else float_decode_slice "w0.data" 8).
Proof. apply (float_slices "x" "w0.data" 64 8). lia. Defined.

(** C2 fails as stated: a float that fills a 32-bit word at offset 0 is
    decoded from the whole word, not from the slice [[31, 0]]. *)
Lemma float_decode_whole_word :
  0 + 32 <= 32
  /\ read_expr FloatType "w0.data" 32 0 = Ok (float_decode_whole "w0.data")
  /\ read_expr FloatType "w0.data" 32 0 <> Ok (float_decode_slice "w0.data" 0).
Proof.
  split; [lia|]. split; [reflexivity|].
  vm_compute. discriminate.
Qed.

(** ** Enumerations *)


(** Up to 2^48 the double computation of the logarithm is exact: every such
    integer is a double, and unless it is a power of two its logarithm lies
    far enough above the exponent not to be rounded down to it. *)
Lemma ceil_log2_small (n : Z) :
  0 < n -> n <= 2 ^ 48 -> ceil_log2 n = Ok (Z.log2_up n).
Proof.
  intros Hpos Hsmall. unfold ceil_log2.
  destruct (Z.leb_spec n 0) as [Hle|_]; [lia|].
  pose proof (Z.log2_nonneg n) as Hk0.
  destruct (Z.log2_spec n Hpos) as [Hlo Hhi].
  assert (Z.log2 n <= 48) as Hk48.
  { replace 48 with (Z.log2 (2 ^ 48)) by reflexivity.
    now apply Z.log2_le_mono. }
  unfold double_of_int.
  destruct (Z.leb_spec (Z.log2 n) 52) as [_|Hgt]; [|lia].
  set (k := Z.log2 n) in *.
  assert (2 ^ 52 = 2 ^ k * 2 ^ (52 - k)) as Hsplit
    by (rewrite <- Z.pow_add_r by lia; f_equal; lia).
  f_equal.
  destruct (Z.eq_dec n (2 ^ k)) as [Heq|Hne].
  - unfold log2_is_floor.
    replace (n * 2 ^ (52 - k) - 2 ^ 52) with 0 by (rewrite Hsplit, Heq; lia).
    cbn [Z.eqb orb]. rewrite Heq. symmetry. now apply Z.log2_up_pow2.
  - assert (k <= 47) as Hk47.
    { destruct (Z.eq_dec k 48) as [E|E]; [|lia]. rewrite E in *. lia. }
    assert (2 ^ 5 <= 2 ^ (52 - k)) as HP
      by (apply Z.pow_le_mono_r; lia).
    change (2 ^ 5) with 32 in HP.
    assert (32 <= n * 2 ^ (52 - k) - 2 ^ 52) as Hm by (rewrite Hsplit; nia).
    assert ((2 ^ (Z.log2 k - 1) * ln2_num) / ln2_den <= 11) as Hthr.
    { assert (Z.log2 k <= 5) as Hj.
      { replace 5 with (Z.log2 47) by reflexivity.
        now apply Z.log2_le_mono. }
      assert (2 ^ (Z.log2 k - 1) <= 2 ^ 4) as Hp
        by (apply Z.pow_le_mono_r; lia).
      replace 11 with ((2 ^ 4 * ln2_num) / ln2_den) by reflexivity.
      apply Z.div_le_mono; [reflexivity|].
      apply Z.mul_le_mono_nonneg_r; [discriminate|exact Hp]. }
    unfold log2_is_floor.
    destruct (Z.eqb_spec (n * 2 ^ (52 - k) - 2 ^ 52) 0) as [E|_]; [lia|].
    destruct (Z.leb_spec 1024 k) as [Hbig|_]; [lia|].
    cbn [orb].
    destruct (Z.leb_spec (n * 2 ^ (52 - k) - 2 ^ 52)
                (2 ^ (Z.log2 k - 1) * ln2_num / ln2_den)) as [Hle|_]; [lia|].
    symmetry. apply Z.log2_up_unique; [lia|].
    replace (Z.pred (k + 1)) with k by lia.
    replace (k + 1) with (Z.succ k) by lia. lia.
Qed.

Lemma ceil_log2_domain (n : Z) :
  ceil_log2 n = Raise (ValueError "math domain error") <-> n <= 0.
Proof.
  unfold ceil_log2. destruct (Z.leb_spec n 0) as [Hle|Hgt].
  - tauto.
  - destruct (double_of_int n) as [sig k]. split; [discriminate|lia].
Qed.




(** C10: an enumeration built from no entries and without an explicit width
    is never constructed: the counter is still 0 when the default width is
    computed, and the logarithm raises a math domain error. *)
Theorem enum_empty_entries_raises (nm : string) :
  enum_loop [] [] 0 = Ok ([], 0)
  /\ ceil_log2 0 = Raise (ValueError "math domain error")
  /\ EnumType_init nm [] None = Raise (ValueError "math domain error").
Proof. repeat split. Qed.

(** ** Dispatch with no configured width *)

(** C8: with no bus width configured, [gen_stream_dispatch] raises nothing
    and returns a write stub and a read stub; the body of each is a
    [static_assert] on [sizeof(Tstream) == 0] whose message names the
    record. *)
Theorem dispatch_without_widths (nm : string) (fs : list FieldInfo) :
  let self := {| ds_name := nm; fields := fs; stream_bus_widths := [] |} in
  let message :=
    dq +:+ "No stream bus widths configured for " +:+ nm +:+ dq in
  gen_stream_dispatch self
  = (join nl
       [ "    template<typename Tstream>";
         "    void stream_write(hls::stream<Tstream>& out, bool tlast = true) const {";
         "        static_assert(sizeof(Tstream) == 0, ";
         "                     " +:+ message +:+ ");";
         "    }" ],
     join nl
       [ "    template<typename Tstream>";
         "    bool stream_read(hls::stream<Tstream>& in) {";
         "        static_assert(sizeof(Tstream) == 0, ";
         "                     " +:+ message +:+ ");";
         "        return false;";
         "    }" ])
  /\ contains ("static_assert(sizeof(Tstream) == 0, " +:+ nl
               +:+ "                     " +:+ message +:+ ");")
              (fst (gen_stream_dispatch self))
  /\ contains ("static_assert(sizeof(Tstream) == 0, " +:+ nl
               +:+ "                     " +:+ message +:+ ");")
              (snd (gen_stream_dispatch self)).
Proof.
  intros self message. split; [|split].
  - unfold gen_stream_dispatch, no_widths_assert, write_sig, read_sig.
    simpl. subst message. norm_text. reflexivity.
  - exists ("    template<typename Tstream>" +:+ nl
       +:+ "    void stream_write(hls::stream<Tstream>& out, bool tlast = true) const {"
       +:+ nl +:+ "        ").
    exists (nl +:+ "    }").
    unfold gen_stream_dispatch, no_widths_assert, write_sig.
    simpl. subst message. norm_text. reflexivity.
  - exists ("    template<typename Tstream>" +:+ nl
       +:+ "    bool stream_read(hls::stream<Tstream>& in) {"
       +:+ nl +:+ "        ").
    exists (nl +:+ "        return false;" +:+ nl +:+ "    }").
    unfold gen_stream_dispatch, no_widths_assert, read_sig.
    simpl. subst message. norm_text. reflexivity.
Qed.

(** ** A layout without fields *)

(** C9: for a layout with no field and any bus width, [gen_stream_write]
    returns a routine made of its header and its closing brace, with no
    [out.write] line, and [gen_stream_read] returns a routine whose
    end-of-message line is [bool tlast = None.last;]. *)
Theorem no_field_routines (nm : string) (ws : list Z) (bus_width : Z) :
  let self := {| ds_name := nm; fields := []; stream_bus_widths := ws |} in
  gen_stream_write_lines self bus_width
    = Ok (write_header self bus_width ++ [ "    }" ])
  /\ gen_stream_write self bus_width
     = Ok (join nl (write_header self bus_width ++ [ "    }" ]))
  /\ count_emissions (write_header self bus_width ++ [ "    }" ]) = 0%nat
  /\ gen_stream_read_lines self bus_width
     = Ok (read_header self bus_width
           ++ [ "        bool tlast = None.last;";
                EmptyString;
                "        return tlast;";
                "    }" ])
  /\ gen_stream_read self bus_width
     = Ok (join nl (read_header self bus_width
                    ++ [ "        bool tlast = None.last;";
                         EmptyString;
                         "        return tlast;";
                         "    }" ])).
Proof.
  intros self. repeat split.
Qed.

(** ** Fields wider than the bus *)

Lemma check_widths_ok (fs : list FieldInfo) (w : Z) :
  Forall (fun f => width (dtype f) <= w) fs -> check_widths fs w = Ok tt.
Proof.
  induction 1 as [|f fs Hf _ IH]; simpl; [reflexivity|].
  destruct (Z.ltb_spec w (width (dtype f))) as [Hlt|_]; [lia|exact IH].
Qed.

Lemma check_widths_too_wide (fs : list FieldInfo) (w : Z) :
  Exists (fun f => w < width (dtype f)) fs ->
  exists f,
    In f fs /\ w < width (dtype f)
    /\ check_widths fs w
       = Raise (ValueError
           ("Field '" +:+ name f +:+ "' has width " +:+ str (width (dtype f))
            +:+ " bits, " +:+ "which exceeds bus width " +:+ str w
            +:+ " bits")).
Proof.
  induction fs as [|g fs IH]; intros Hex; [inversion Hex|].
  simpl. destruct (Z.ltb_spec w (width (dtype g))) as [Hlt|Hge].
  - exists g. repeat split; [now left|assumption].
  - inversion Hex as [? ? Hg|? ? Hrest]; subst; [lia|].
    destruct (IH Hrest) as (f & Hin & Hw & Hchk).
    exists f. repeat split; [now right|assumption|assumption].
Qed.

(** C6: when some field is wider than the requested bus width, the width
    check that opens [gen_stream_read] and [gen_stream_write] raises the
    [ValueError] naming the first such field, and that error is the result of
    both generators: no packing is done and no line is produced. *)
Theorem too_wide_field_raises (self : DataStructGen) (bus_width : Z)
  (Hwide : Exists (fun f => bus_width < width (dtype f)) (fields self)) :
  exists f,
    let e :=
      ValueError
        ("Field '" +:+ name f +:+ "' has width " +:+ str (width (dtype f))
         +:+ " bits, " +:+ "which exceeds bus width " +:+ str bus_width
         +:+ " bits") in
    In f (fields self) /\ bus_width < width (dtype f)
    /\ check_widths (fields self) bus_width = Raise e
    /\ gen_stream_read_lines self bus_width = Raise e
    /\ gen_stream_read self bus_width = Raise e
    /\ gen_stream_write_lines self bus_width = Raise e
    /\ gen_stream_write self bus_width = Raise e.
Proof.
  destruct (check_widths_too_wide _ _ Hwide) as (f & Hin & Hw & Hchk).
  exists f. intros e. subst e.
  unfold gen_stream_read, gen_stream_write,
    gen_stream_read_lines, gen_stream_write_lines.
  rewrite Hchk. simpl. repeat split; assumption.
Qed.

Lemma too_wide_field_raises_witness :
  exists f,
    In f (fields sample_2020) /\ 16 < width (dtype f)
    /\ gen_stream_read sample_2020 16
       = Raise (ValueError
           ("Field '" +:+ name f +:+ "' has width " +:+ str (width (dtype f))
            +:+ " bits, " +:+ "which exceeds bus width " +:+ str 16
            +:+ " bits"))
    /\ gen_stream_write sample_2020 16
       = Raise (ValueError
           ("Field '" +:+ name f +:+ "' has width " +:+ str (width (dtype f))
            +:+ " bits, " +:+ "which exceeds bus width " +:+ str 16
            +:+ " bits")).
Proof.
  destruct (too_wide_field_raises sample_2020 16) as (f & Hin & Hw & _ & _ & Hr & _ & Hwr).
  - apply Exists_cons_hd. simpl. lia.
  - exists f. repeat split; assumption.
Defined.

(** ** The greedy placement *)

Lemma last_opt_cons {A : Type} (a : A) (l : list A) :
  last_opt (a :: l) <> None.
Proof.
  revert a. induction l as [|b l IH]; intros a; [discriminate|].
  change (last_opt (a :: b :: l)) with (last_opt (b :: l)). apply IH.
Qed.

Section Packing.

Variable W : Z.







Lemma cur_after_wf (fs : list FieldInfo) :
  forall cur, cur_wf cur -> cur_wf (cur_after W cur fs).
Proof.
  induction fs as [|f fs IH]; intros cur Hwf; simpl; [assumption|].
  destruct cur as [[idx off]|]; simpl in Hwf;
    [destruct (off + width (dtype f) <=? W)|]; apply IH; simpl; lia.
Qed.

Lemma cur_after_arrivals (fs : list FieldInfo) :
  forall cur,
    cur_count (cur_after W cur fs)
    = cur_count cur + arrivals_from W (option_map snd cur) fs.
Proof.
  induction fs as [|f fs IH]; intros cur;
    cbn [cur_after arrivals_from]; [lia|].
  destruct cur as [[idx off]|]; cbn [option_map snd].
  - destruct (Z.leb_spec (off + width (dtype f)) W) as [Hle|Hgt];
      destruct (Z.ltb_spec W (off + width (dtype f))) as [Hlt|Hge];
      try lia; rewrite IH; cbn [cur_count option_map snd]; lia.
  - rewrite IH. cbn [cur_count option_map snd]. lia.
Qed.

Lemma count_pass_cur (fs : list FieldInfo) :
  forall cur,
    cur_wf cur ->
    count_pass W fs (cur_ind0 cur) (cur_count cur)
    = (cur_ind0 (cur_after W cur fs), cur_count (cur_after W cur fs)).
Proof.
  induction fs as [|f fs IH]; intros cur Hwf; simpl; [reflexivity|].
  destruct cur as [[idx off]|]; simpl in *.
  - destruct (Z.eqb_spec (idx + 1) 0) as [H0|_]; [lia|].
    rewrite orb_false_r.
    destruct (Z.leb_spec (off + width (dtype f)) W) as [Hle|Hgt];
      destruct (Z.ltb_spec W (off + width (dtype f))) as [Hlt|Hge];
      try lia.
    + apply (IH (Some (idx, off + width (dtype f)))). simpl; lia.
    + apply (IH (Some (idx + 1, width (dtype f)))). simpl; lia.
  - rewrite orb_true_r. apply (IH (Some (0, width (dtype f)))). simpl; lia.
Qed.

Lemma cur_after_last (fs : list FieldInfo) :
  forall cur,
    cur_var (cur_after W cur fs)
    = match last_opt (pack_from W cur fs) with
      | Some p => Some (word_name_of p)
      | None => cur_var cur
      end.
Proof.
  induction fs as [|f fs IH]; intros cur; [reflexivity|].
  assert (forall p c d,
             cur_var c = Some (word_name_of p) ->
             cur_var (cur_after W c fs)
             = match last_opt (p :: pack_from W c fs) with
               | Some p' => Some (word_name_of p')
               | None => d
               end) as Hstep.
  { intros p c d Hc. rewrite IH.
    destruct (pack_from W c fs) as [|p1 ps]; [exact Hc|].
    change (last_opt (p :: p1 :: ps)) with (last_opt (p1 :: ps)).
    destruct (last_opt (p1 :: ps)) eqn:Hl; [reflexivity|].
    now apply last_opt_cons in Hl. }
  simpl cur_after. simpl pack_from.
  destruct cur as [[idx off]|];
    [destruct (off + width (dtype f) <=? W)|];
    apply Hstep; reflexivity.
Qed.

Lemma pack_from_chain (fs : list FieldInfo) :
  forall idx off, chain idx (pack_from W (Some (idx, off)) fs).
Proof.
  induction fs as [|f fs IH]; intros idx off; simpl; [exact I|].
  destruct (off + width (dtype f) <=? W); simpl.
  - left. repeat split. apply IH.
  - right. repeat split. apply IH.
Qed.

End Packing.

(** ** The generators follow the placement *)

Section Generators.

Variable W : Z.

Lemma read_step_pack (f : FieldInfo) (cur : option (Z * Z))
  (ls : list string) :
  fits W f ->
  exists p,
    pack_from W cur [f] = [p]
    /\ returns (decode_of W p) = true
    /\ read_step W f (state_at ls cur)
       = Ok (state_at (ls ++ read_chunk W p) (cur_after W cur [f])).
Proof.
  unfold fits. intros Hfit.
  unfold read_step, state_at, read_chunk, decode_of, word_name_of.
  destruct cur as [[idx off]|]; cbn [pack_from cur_after cur_ind0 cur_count
    cur_var lines ind0 word_count word_var is_None].
  - rewrite orb_false_r.
    destruct (Z.leb_spec (off + width (dtype f)) W) as [Hle|Hgt];
      destruct (Z.ltb_spec W (off + width (dtype f))) as [Hlt|Hge];
      try lia; eexists; (split; [reflexivity|]);
      cbn [pl_field pl_word pl_offset pl_opens lines ind0 word_count
           word_var add_suffix bind].
    + pose proof (read_expr_fits (dtype f) ("w" +:+ str idx +:+ ".data")
                    W off ltac:(lia)) as Hret.
      split; [exact Hret|].
      rewrite (returns_text_of _ Hret) at 1. reflexivity.
    + pose proof (read_expr_fits (dtype f)
                    ("w" +:+ str (idx + 1) +:+ ".data")
                    W 0 ltac:(lia)) as Hret.
      split; [exact Hret|].
      rewrite (returns_text_of _ Hret) at 1.
      unfold advance, append_line.
      cbn [bind lines ind0 word_count word_var].
      rewrite <- app_assoc. reflexivity.
  - rewrite orb_true_r.
    eexists; (split; [reflexivity|]);
      cbn [pl_field pl_word pl_offset pl_opens lines ind0 word_count
           word_var add_suffix bind].
    pose proof (read_expr_fits (dtype f) ("w" +:+ str 0 +:+ ".data")
                  W 0 ltac:(lia)) as Hret.
    split; [exact Hret|].
    rewrite (returns_text_of _ Hret) at 1.
    unfold advance, append_line.
    cbn [bind lines ind0 word_count word_var].
    rewrite <- app_assoc. reflexivity.
Qed.

Lemma pack_from_cons (f : FieldInfo) (fs : list FieldInfo)
  (cur : option (Z * Z)) :
  pack_from W cur (f :: fs)
  = pack_from W cur [f] ++ pack_from W (cur_after W cur [f]) fs.
Proof.
  simpl. destruct cur as [[idx off]|];
    [destruct (off + width (dtype f) <=? W)|]; reflexivity.
Qed.

Lemma cur_after_cons (f : FieldInfo) (fs : list FieldInfo)
  (cur : option (Z * Z)) :
  cur_after W cur (f :: fs) = cur_after W (cur_after W cur [f]) fs.
Proof.
  simpl. destruct cur as [[idx off]|];
    [destruct (off + width (dtype f) <=? W)|]; reflexivity.
Qed.

Lemma read_loop_pack (fs : list FieldInfo) :
  Forall (fits W) fs ->
  forall cur ls,
    Forall (fun p => returns (decode_of W p) = true) (pack_from W cur fs)
    /\ read_loop W fs (state_at ls cur)
       = Ok (state_at (ls ++ flat_map (read_chunk W) (pack_from W cur fs))
                      (cur_after W cur fs)).
Proof.
  induction 1 as [|f fs Hf _ IH]; intros cur ls.
  - simpl. rewrite app_nil_r. split; [constructor|reflexivity].
  - destruct (read_step_pack f cur ls Hf) as (p & Hp & Hret & Hstep).
    rewrite (cur_after_cons f fs cur), (pack_from_cons f fs cur), Hp.
    destruct (IH (cur_after W cur [f]) (ls ++ read_chunk W p))
      as [Hall Hloop].
    split; [constructor; assumption|].
    cbn [read_loop]. rewrite Hstep. cbn [bind]. rewrite Hloop.
    cbn [app flat_map]. rewrite <- app_assoc. reflexivity.
Qed.

Lemma write_step_pack (total : Z) (f : FieldInfo) (cur : option (Z * Z))
  (ls : list string) :
  fits W f -> cur_wf cur ->
  exists p,
    pack_from W cur [f] = [p]
    /\ returns (encode_of W p) = true
    /\ write_step W total f (state_at ls cur)
       = Ok (state_at (ls ++ write_chunk W p) (cur_after W cur [f])).
Proof.
  unfold fits. intros Hfit Hwf.
  unfold write_step, state_at, write_chunk, encode_line, encode_of,
    word_name_of.
  destruct cur as [[idx off]|]; cbn [pack_from cur_after cur_ind0 cur_count
    cur_var lines ind0 word_count word_var is_None cur_wf] in *.
  - rewrite orb_false_r.
    destruct (Z.leb_spec (off + width (dtype f)) W) as [Hle|Hgt];
      destruct (Z.ltb_spec W (off + width (dtype f))) as [Hlt|Hge];
      try lia; eexists; (split; [reflexivity|]);
      cbn [pl_field pl_word pl_offset pl_opens lines ind0 word_count
           word_var add_suffix bind].
    + pose proof (write_expr_fits (dtype f) (name f)
                    ("w" +:+ str idx +:+ ".data") W off ltac:(lia)) as Hret.
      split; [exact Hret|].
      rewrite (returns_text_of _ Hret) at 1. reflexivity.
    + replace (idx + 1 + 1 - 1) with (idx + 1) by lia.
      replace (idx + 1 - 1) with idx by lia.
      destruct (Z.ltb_spec 0 (idx + 1)) as [_|Hneg]; [|lia].
      pose proof (write_expr_fits (dtype f) (name f)
                    ("w" +:+ str (idx + 1) +:+ ".data")
                    W 0 ltac:(lia)) as Hret.
      split; [exact Hret|].
      rewrite (returns_text_of _ Hret) at 1.
      unfold advance, append_line, emit_lines, open_lines.
      cbn [bind lines ind0 word_count word_var].
      rewrite <- !app_assoc. reflexivity.
  - rewrite orb_true_r.
    eexists; (split; [reflexivity|]);
      cbn [pl_field pl_word pl_offset pl_opens lines ind0 word_count
           word_var add_suffix bind].
    pose proof (write_expr_fits (dtype f) (name f)
                  ("w" +:+ str 0 +:+ ".data") W 0 ltac:(lia)) as Hret.
    split; [exact Hret|].
    change (0 + 1 - 1) with 0.
    rewrite (returns_text_of _ Hret) at 1.
    unfold advance, append_line, open_lines.
    cbn [bind lines ind0 word_count word_var].
    rewrite <- !app_assoc. reflexivity.
Qed.

Lemma write_loop_pack (total : Z) (fs : list FieldInfo) :
  Forall (fits W) fs ->
  forall cur ls,
    cur_wf cur ->
    Forall (fun p => returns (encode_of W p) = true) (pack_from W cur fs)
    /\ write_loop W total fs (state_at ls cur)
       = Ok (state_at (ls ++ flat_map (write_chunk W) (pack_from W cur fs))
                      (cur_after W cur fs)).
Proof.
  induction 1 as [|f fs Hf _ IH]; intros cur ls Hwf.
  - simpl. rewrite app_nil_r. split; [constructor|reflexivity].
  - destruct (write_step_pack total f cur ls Hf Hwf)
      as (p & Hp & Hret & Hstep).
    rewrite (cur_after_cons f fs cur), (pack_from_cons f fs cur), Hp.
    destruct (IH (cur_after W cur [f]) (ls ++ write_chunk W p)
                 (cur_after_wf W [f] cur Hwf))
      as [Hall Hloop].
    split; [constructor; assumption|].
    cbn [write_loop]. rewrite Hstep. cbn [bind]. rewrite Hloop.
    cbn [app flat_map]. rewrite <- app_assoc. reflexivity.
Qed.

End Generators.

(** ** The greedy rule, field by field *)

Section GreedyRule.

Variable W : Z.

Lemma pack_head (cur : option (Z * Z)) (f : FieldInfo) :
  exists p,
    pack_from W cur [f] = [p] /\ pl_field p = f
    /\ cur_after W cur [f]
       = Some (pl_word p, pl_offset p + width (dtype f)).
Proof.
  simpl. destruct cur as [[idx off]|];
    [destruct (off + width (dtype f) <=? W)|];
    eexists; repeat split.
Qed.



Lemma pack_opened (fs : list FieldInfo) :
  forall cur,
    Z.of_nat (List.length (filter pl_opens (pack_from W cur fs)))
    = arrivals_from W (option_map snd cur) fs.
Proof.
  induction fs as [|f fs IH]; intros cur; [reflexivity|].
  cbn [pack_from arrivals_from].
  destruct cur as [[idx off]|]; cbn [option_map snd].
  - destruct (Z.leb_spec (off + width (dtype f)) W) as [Hle|Hgt];
      destruct (Z.ltb_spec W (off + width (dtype f))) as [Hlt|Hge];
      try lia; cbn [filter pl_opens List.length]; rewrite ?Nat2Z.inj_succ, IH;
      cbn [option_map snd]; lia.
  - cbn [filter pl_opens List.length]. rewrite Nat2Z.inj_succ, IH.
    cbn [option_map snd]. lia.
Qed.

End GreedyRule.


(** The two packing scenarios: 8 and 16 bits share one 32-bit word, two
    fields of 20 bits take a word each. *)
Example pack_ab :
  map (fun p => (name (pl_field p), pl_word p, pl_offset p))
      (pack 32 (fields sample_ab))
  = [ ("a", 0, 0); ("b", 0, 8) ].
Proof. reflexivity. Qed.

Example pack_2020 :
  map (fun p => (name (pl_field p), pl_word p, pl_offset p))
      (pack 32 (fields sample_2020))
  = [ ("a", 0, 0); ("b", 1, 0) ]
  /\ knapsack_arrival_count 32 (fields sample_2020) = 2.
Proof. split; reflexivity. Qed.



(** ** The write routine, word by word *)

Section WriteWords.

Variable W : Z.

Lemma group_words_concat (ps : list placement) :
  List.concat (group_words ps) = ps.
Proof.
  induction ps as [|p ps IH]; [reflexivity|].
  cbn [group_words].
  destruct (group_words ps) as [|g gs].
  - simpl in IH. subst ps. reflexivity.
  - destruct (head_opens ps); cbn [List.concat app] in *; now rewrite IH.
Qed.

Lemma chain_groups (ps : list placement) :
  forall p k,
    pl_word p = k -> 0 <= k -> chain k ps ->
    exists g gs,
      group_words (p :: ps) = g :: gs
      /\ words_numbered k (g :: gs)
      /\ [ encode_line W p ] ++ flat_map (write_chunk W) ps
         ++ final_word (final_var (p :: ps))
         = map (encode_line W) g
           ++ match gs with
              | [] => emit_lines ("w" +:+ str k) "tlast"
              | _ :: _ =>
                  emit_lines ("w" +:+ str k) "false" ++ [ EmptyString ]
                  ++ render_words W (k + 1) gs
              end.
Proof.
  induction ps as [|q ps IH]; intros p k Hp Hk Hchain.
  - exists [p], []. split; [reflexivity|]. split.
    + cbn. repeat split; [discriminate|]. constructor; [assumption|constructor].
    + cbn [flat_map app map final_var last_opt option_map final_word].
      unfold word_name_of, emit_lines. rewrite Hp. reflexivity.
  - cbn [chain] in Hchain.
    change (final_var (p :: q :: ps)) with (final_var (q :: ps)).
    cbn [group_words] in *. cbn [head_opens].
    destruct Hchain as [(Hop & Hq & Hch)|(Hop & Hq & Hch)].
    + destruct (IH q k Hq Hk Hch) as (g & gs & Hg & Hnum & Hlines).
      rewrite Hg, Hop. exists (p :: g), gs. split; [reflexivity|].
      split.
      * cbn [words_numbered] in *. destruct Hnum as (_ & Hall & Hrest).
        repeat split; [discriminate| |assumption].
        constructor; assumption.
      * cbn [flat_map]. unfold write_chunk at 1. rewrite Hop.
        cbn [app map] in *. rewrite <- ?app_assoc. cbn [app].
        f_equal. exact Hlines.
    + destruct (IH q (k + 1) Hq ltac:(lia) Hch)
        as (g & gs & Hg & Hnum & Hlines).
      rewrite Hg, Hop. exists [p], (g :: gs). split; [reflexivity|].
      split.
      * cbn [words_numbered] in *.
        repeat split; try discriminate; try apply Hnum.
        constructor; [assumption|constructor].
      * cbn [flat_map]. unfold write_chunk at 1. rewrite Hop, Hq.
        destruct (Z.ltb_spec 0 (k + 1)) as [_|Hneg]; [|lia].
        replace (k + 1 - 1) with k by lia.
        unfold word_name_of at 1. rewrite Hq.
        cbn [render_words map app].
        rewrite <- !app_assoc. cbn [app]. f_equal.
        unfold emit_lines at 1 2. cbn [app]. do 3 f_equal.
        apply app_inv_head_iff.
        cbn [app] in Hlines. exact Hlines.
Qed.

Lemma pack_groups (fs : list FieldInfo) :
  flat_map (write_chunk W) (pack W fs) ++ final_word (final_var (pack W fs))
  = render_words W 0 (group_words (pack W fs))
  /\ words_numbered 0 (group_words (pack W fs)).
Proof.
  destruct fs as [|f fs]; [split; [reflexivity|exact I]|].
  unfold pack. cbn [pack_from].
  set (p := {| pl_field := f; pl_word := 0; pl_offset := 0;
               pl_opens := true |}).
  destruct (chain_groups (pack_from W (Some (0, width (dtype f))) fs)
              p 0 eq_refl (Z.le_refl 0) (pack_from_chain W fs 0 _))
    as (g & gs & Hg & Hnum & Hlines).
  rewrite Hg. split; [|exact Hnum].
  cbn [flat_map render_words]. unfold write_chunk at 1.
  cbn [pl_opens pl_word p]. change (0 <? 0) with false.
  unfold word_name_of at 1. cbn [pl_word p app].
  rewrite <- !app_assoc. cbn [app] in *. f_equal. f_equal. f_equal. f_equal.
  exact Hlines.
Qed.

End WriteWords.

(** ** Emission calls *)

Lemma encode_line_not_emission (W : Z) (p : placement) :
  is_emission (encode_line W p) = false.
Proof.
  unfold is_emission, encode_line, encode_of, write_expr, word_name_of.
  destruct (W <? width (dtype (pl_field p)) + pl_offset p); [reflexivity|].
  unfold write_expr_impl.
  destruct (dtype (pl_field p)) as [bw sg| |en ee bw].
  - destruct ((bw =? W) && (pl_offset p =? 0)); reflexivity.
  - destruct (W <? pl_offset p + 32); reflexivity.
  - destruct ((bw =? W) && (pl_offset p =? 0)); reflexivity.
Qed.

Lemma encode_lines_no_emission (W : Z) (g : list placement) :
  filter is_emission (map (encode_line W) g) = [].
Proof.
  induction g as [|p g IH]; [reflexivity|].
  cbn [map filter]. now rewrite encode_line_not_emission.
Qed.

Lemma render_words_emissions (W : Z) (ws : list (list placement)) :
  forall k,
    filter is_emission (render_words W k ws)
    = map emission_of (word_indices k (List.length ws)).
Proof.
  induction ws as [|g ws IH]; intros k; [reflexivity|].
  change (render_words W k (g :: ws))
    with (open_lines ("w" +:+ str k) ++ map (encode_line W) g
          ++ match ws with
             | [] => emit_lines ("w" +:+ str k) "tlast"
             | _ :: _ =>
                 emit_lines ("w" +:+ str k) "false" ++ [ EmptyString ]
                 ++ render_words W (k + 1) ws
             end).
  cbn [List.length word_indices map].
  rewrite !filter_app, encode_lines_no_emission.
  change (filter is_emission (open_lines ("w" +:+ str k))) with (@nil string).
  cbn [app].
  destruct ws as [|g' ws'].
  - reflexivity.
  - rewrite !filter_app.
    change (filter is_emission (EmptyString :: render_words W (k + 1) (g' :: ws')))
      with (filter is_emission (render_words W (k + 1) (g' :: ws'))).
    rewrite IH.
    change (filter is_emission (emit_lines ("w" +:+ str k) "false"))
      with [emission_of k].
    reflexivity.
Qed.

Lemma group_words_length (ps : list placement) :
  forall p,
    List.length (group_words (p :: ps))
    = S (List.length (filter pl_opens ps)).
Proof.
  induction ps as [|q ps IH]; intros p; [reflexivity|].
  specialize (IH q).
  change (group_words (p :: q :: ps))
    with (match group_words (q :: ps) with
          | g :: gs => if pl_opens q then [p] :: g :: gs else (p :: g) :: gs
          | [] => [[p]]
          end).
  destruct (group_words (q :: ps)) as [|g gs]; [discriminate|].
  cbn [filter]. destruct (pl_opens q); cbn [List.length] in *; lia.
Qed.

Lemma pack_groups_length (W : Z) (fs : list FieldInfo) :
  Z.of_nat (List.length (group_words (pack W fs)))
  = knapsack_arrival_count W fs.
Proof.
  unfold knapsack_arrival_count.
  pose proof (pack_opened W fs None) as Hopened.
  cbn [option_map] in Hopened. rewrite <- Hopened. f_equal.
  destruct fs as [|f fs]; [reflexivity|].
  unfold pack. cbn [pack_from]. rewrite group_words_length. reflexivity.
Qed.

(** C7: for a layout with at least one field, all no wider than the bus,
    the write routine is, after its header, one block per word in word
    order: the word is declared and its data set to zero, then the fields
    placed in it are encoded, then its end-of-message flag is set ([false]
    for every word but the last, [tlast] for the last) and it is written with
    [out.write]; the [out.write] lines of the routine are exactly one per
    word, in word order. *)
Theorem write_routine_by_words (self : DataStructGen) (W : Z)
  (Hne : fields self <> [])
  (Hfit : Forall (fits W) (fields self)) :
  let words := group_words (pack W (fields self)) in
  let routine := write_header self W ++ render_words W 0 words ++ [ "    }" ] in
  gen_stream_write_lines self W = Ok routine
  /\ gen_stream_write self W = Ok (join nl routine)
  /\ words <> []
  /\ List.concat words = pack W (fields self)
  /\ words_numbered 0 words
  /\ Forall (Forall (fun p => returns (encode_of W p) = true)) words
  /\ Z.of_nat (List.length words) = total_words W (fields self)
  /\ filter is_emission routine
     = map emission_of (word_indices 0 (List.length words)).
Proof.
  intros words routine.
  pose proof (check_widths_ok _ _ Hfit) as Hchk.
  destruct (write_loop_pack W (total_words W (fields self)) (fields self)
              Hfit None (write_header self W) I)
    as [Henc Hwrite].
  change (state_at (write_header self W) None)
    with (init_state (write_header self W)) in Hwrite.
  assert (cur_var (cur_after W None (fields self))
          = final_var (pack W (fields self))) as Hvar.
  { rewrite cur_after_last. unfold final_var, pack.
    destruct (last_opt (pack_from W None (fields self))); reflexivity. }
  destruct (pack_groups W (fields self)) as [Hrender Hnum].
  assert (gen_stream_write_lines self W = Ok routine) as Hlines.
  { unfold gen_stream_write_lines. rewrite Hchk. cbn [bind].
    rewrite Hwrite. cbn [bind state_at lines word_var].
    rewrite Hvar. subst routine words.
    rewrite <- Hrender, <- !app_assoc. reflexivity. }
  repeat match goal with |- _ /\ _ => split end.
  - exact Hlines.
  - unfold gen_stream_write. rewrite Hlines. reflexivity.
  - subst words. destruct (fields self) as [|f fs]; [contradiction|].
    unfold pack. cbn [pack_from]. intros Hnil.
    pose proof (group_words_length
                  (pack_from W (Some (0, width (dtype f))) fs)
                  {| pl_field := f; pl_word := 0; pl_offset := 0;
                     pl_opens := true |}) as Hlen.
    rewrite Hnil in Hlen. discriminate.
  - apply group_words_concat.
  - exact Hnum.
  - apply Forall_concat. subst words. rewrite group_words_concat. exact Henc.
  - subst words. rewrite pack_groups_length.
    unfold total_words.
    change (count_pass W (fields self) 0 0)
      with (count_pass W (fields self) (cur_ind0 None) (cur_count None)).
    rewrite (count_pass_cur W (fields self) None I). cbn [snd].
    pose proof (cur_after_arrivals W (fields self) None) as Hcount.
    cbn [cur_count option_map] in Hcount.
    unfold knapsack_arrival_count. lia.
  - subst routine. rewrite !filter_app, render_words_emissions.
    change (filter is_emission (write_header self W)) with (@nil string).
    change (filter is_emission [ "    }" ]) with (@nil string).
    rewrite app_nil_r. reflexivity.
Qed.

Lemma write_routine_by_words_witness :
  gen_stream_write_lines sample_2020 32
  = Ok (write_header sample_2020 32
        ++ render_words 32 0 (group_words (pack 32 (fields sample_2020)))
        ++ [ "    }" ])
  /\ filter is_emission
       (write_header sample_2020 32
        ++ render_words 32 0 (group_words (pack 32 (fields sample_2020)))
        ++ [ "    }" ])
     = [ emission_of 0; emission_of 1 ].
Proof.
  assert (fields sample_2020 <> []) as Hne by discriminate.
  assert (Forall (fits 32) (fields sample_2020)) as Hfit
    by (repeat constructor; unfold fits; simpl; lia).
  pose proof (write_routine_by_words sample_2020 32 Hne Hfit) as H.
  cbv zeta in H.
  destruct H as (H1 & _ & _ & _ & _ & _ & _ & H8).
  split; [exact H1|exact H8].
Defined.

(** ** Auxiliary declarations in the include file *)

Lemma gen_stream_read_returns (self : DataStructGen) (W : Z) :
  Forall (fits W) (fields self) -> returns (gen_stream_read self W) = true.
Proof.
  intros Hfit. unfold gen_stream_read, gen_stream_read_lines.
  rewrite (check_widths_ok _ _ Hfit). cbn [bind].
  destruct (read_loop_pack W (fields self) Hfit None (read_header self W))
    as [_ Hread].
  change (state_at (read_header self W) None)
    with (init_state (read_header self W)) in Hread.
  rewrite Hread. reflexivity.
Qed.

Lemma gen_stream_write_returns (self : DataStructGen) (W : Z) :
  Forall (fits W) (fields self) -> returns (gen_stream_write self W) = true.
Proof.
  intros Hfit. unfold gen_stream_write, gen_stream_write_lines.
  rewrite (check_widths_ok _ _ Hfit). cbn [bind].
  destruct (write_loop_pack W (total_words W (fields self)) (fields self)
              Hfit None (write_header self W) I) as [_ Hwrite].
  change (state_at (write_header self W) None)
    with (init_state (write_header self W)) in Hwrite.
  rewrite Hwrite. reflexivity.
Qed.

Lemma stream_sections_returns (self : DataStructGen) (ws : list Z) :
  fits_all (fields self) ws ->
  exists ls, stream_sections self ws = Ok ls.
Proof.
  unfold fits_all. induction 1 as [|w ws Hw _ IH]; [now exists []|].
  cbn [stream_sections].
  pose proof (gen_stream_read_returns self w Hw) as Hr.
  pose proof (gen_stream_write_returns self w Hw) as Hwr.
  destruct (gen_stream_read self w) as [r|]; [|discriminate].
  destruct (gen_stream_write self w) as [wr|]; [|discriminate].
  destruct IH as [ls Hls]. rewrite Hls. cbn [bind]. eexists. reflexivity.
Qed.

Lemma preamble_lines_aux (fs : list FieldInfo) :
  preamble_lines fs
  = flat_map (fun p => [ "    " +:+ p; EmptyString ]) (aux_decls fs).
Proof.
  induction fs as [|f fs IH]; [reflexivity|].
  unfold aux_decls in *. cbn [preamble_lines flat_map].
  destruct (preamble (dtype f)) as [p|]; [|exact IH].
  destruct (strip_nonempty p); [|exact IH].
  cbn [app flat_map]. now rewrite IH.
Qed.

Lemma aux_decls_count (fs : list FieldInfo) (p : string) :
  strip_nonempty p = true ->
  count_occ string_dec (aux_decls fs) p
  = List.length (filter (has_preamble p) fs).
Proof.
  intros Hp. induction fs as [|f fs IH]; [reflexivity|].
  unfold aux_decls in *. cbn [flat_map filter]. unfold has_preamble at 1.
  destruct (preamble (dtype f)) as [q|]; [|exact IH].
  destruct (String.eqb_spec p q) as [Heq|Hneq].
  - subst q. rewrite Hp. cbn [app List.length].
    rewrite count_occ_cons_eq by reflexivity. now rewrite IH.
  - destruct (strip_nonempty q); [|exact IH].
    cbn [app]. rewrite count_occ_cons_neq by congruence. exact IH.
Qed.

(** C3, as the code has it: the include text carries, after its prologue
    and before the field declarations, one copy of the auxiliary declaration
    of every field whose type has a non-blank one, in field order, each
    followed by an empty line; nothing is deduplicated, so a declaration
    shared by [n] fields stands there [n] times. *)
Theorem include_preamble_per_field (self : DataStructGen)
  (include_file : option string) (bus_widths : option (list Z))
  (Hfit : fits_all (fields self) (widths_or_default bus_widths)) :
  exists self' guard rest,
    gen_include self include_file bus_widths
    = Ok (self',
          join nl (include_prologue guard (ds_name self)
                   ++ flat_map (fun p => [ "    " +:+ p; EmptyString ])
                        (aux_decls (fields self))
                   ++ map cpp_decl (fields self) ++ rest))
    /\ stream_bus_widths self' = widths_or_default bus_widths
    /\ forall p,
         strip_nonempty p = true ->
         count_occ string_dec (aux_decls (fields self)) p
         = List.length (filter (has_preamble p) (fields self)).
Proof.
  set (self1 := {| ds_name := ds_name self; fields := fields self;
                   stream_bus_widths := widths_or_default bus_widths |}).
  destruct (stream_sections_returns self1 (widths_or_default bus_widths) Hfit)
    as [ls Hls].
  unfold gen_include. fold (widths_or_default bus_widths). fold self1.
  rewrite Hls. cbn [bind].
  destruct (gen_stream_dispatch self1) as [wd rd].
  rewrite preamble_lines_aux.
  do 3 eexists. split; [|split].
  - unfold include_prologue. cbn [fields ds_name self1].
    rewrite <- !app_assoc. cbn [app]. reflexivity.
  - reflexivity.
  - intros p Hp. now apply aux_decls_count.
Qed.

Lemma include_preamble_per_field_witness :
  exists self' text,
    gen_include sample_enum2 None (Some [32; 64]) = Ok (self', text)
    /\ stream_bus_widths self' = [32; 64]
    /\ count_occ string_dec (aux_decls (fields sample_enum2)) color_decl
       = 2%nat.
Proof.
  assert (fits_all (fields sample_enum2) (widths_or_default (Some [32; 64])))
    as Hfit
    by (repeat constructor; simpl; lia).
  destruct (include_preamble_per_field sample_enum2 None (Some [32; 64]) Hfit)
    as (self' & guard & rest & Hgen & Hws & Hcount).
  exists self'. eexists. split; [exact Hgen|]. split; [exact Hws|].
  rewrite (Hcount color_decl eq_refl). reflexivity.
Defined.

(** C3 fails as stated: two fields that share one enumeration put its
    declaration twice into the include text. *)
Lemma shared_enum_declared_twice :
  preamble (dtype (field "fg" color)) = Some color_decl
  /\ preamble (dtype (field "bg" color)) = Some color_decl
  /\ exists self' text,
       gen_include sample_enum2 None None = Ok (self', text)
       /\ count_substr color_decl text = 2%nat.
Proof.
  split; [reflexivity|]. split; [reflexivity|].
  destruct (gen_include sample_enum2 None None) as [[self' text]|e] eqn:Hgen;
    [|vm_compute in Hgen; discriminate].
  exists self', text. split; [reflexivity|].
  vm_compute in Hgen. injection Hgen as _ <-.
  vm_compute. reflexivity.
Qed.

(** * Further properties of the generators *)

(** ** When generation succeeds *)

Lemma check_widths_returns (fs : list FieldInfo) (W : Z) :
  returns (check_widths fs W) = forallb (fitsb W) fs.
Proof.
  induction fs as [|f fs IH]; [reflexivity|].
  cbn [check_widths forallb]. unfold fitsb at 1.
  destruct (Z.ltb_spec W (width (dtype f))) as [Hlt|Hge];
    destruct (Z.leb_spec (width (dtype f)) W) as [Hle|Hgt]; try lia;
    [reflexivity|exact IH].
Qed.

Lemma forallb_fits (fs : list FieldInfo) (W : Z) :
  forallb (fitsb W) fs = true -> Forall (fits W) fs.
Proof.
  intros H. apply Forall_forall. intros f Hin.
  rewrite forallb_forall in H. specialize (H f Hin).
  unfold fitsb in H. unfold fits. lia.
Qed.

Lemma gen_stream_read_returns_iff (self : DataStructGen) (W : Z) :
  returns (gen_stream_read self W) = forallb (fitsb W) (fields self).
Proof.
  destruct (forallb (fitsb W) (fields self)) eqn:Hall.
  - apply gen_stream_read_returns. now apply forallb_fits.
  - rewrite <- check_widths_returns in Hall.
    unfold gen_stream_read, gen_stream_read_lines.
    destruct (check_widths (fields self) W); [discriminate|reflexivity].
Qed.

Lemma gen_stream_write_returns_iff (self : DataStructGen) (W : Z) :
  returns (gen_stream_write self W) = forallb (fitsb W) (fields self).
Proof.
  destruct (forallb (fitsb W) (fields self)) eqn:Hall.
  - apply gen_stream_write_returns. now apply forallb_fits.
  - rewrite <- check_widths_returns in Hall.
    unfold gen_stream_write, gen_stream_write_lines.
    destruct (check_widths (fields self) W); [discriminate|reflexivity].
Qed.

(** X1: [gen_stream_read] and [gen_stream_write] return a routine exactly
    when every field is no wider than the bus; nothing else makes them
    raise. *)
Theorem stream_generators_return_exactly (self : DataStructGen) (W : Z) :
  returns (gen_stream_read self W) = forallb (fitsb W) (fields self)
  /\ returns (gen_stream_write self W) = forallb (fitsb W) (fields self).
Proof.
  split; [apply gen_stream_read_returns_iff|apply gen_stream_write_returns_iff].
Qed.

Lemma stream_sections_returns_iff (self : DataStructGen) (ws : list Z) :
  returns (stream_sections self ws)
  = forallb (fun w => forallb (fitsb w) (fields self)) ws.
Proof.
  induction ws as [|w ws IH]; [reflexivity|].
  cbn [stream_sections forallb].
  pose proof (gen_stream_read_returns_iff self w) as Hr.
  pose proof (gen_stream_write_returns_iff self w) as Hw.
  destruct (forallb (fitsb w) (fields self)).
  - destruct (gen_stream_read self w); [|discriminate].
    destruct (gen_stream_write self w); [|discriminate].
    cbn [bind andb]. rewrite <- IH.
    destruct (stream_sections self ws); reflexivity.
  - destruct (gen_stream_read self w); [discriminate|reflexivity].
Qed.

(** X2: [gen_include] returns the include text exactly when every field is
    no wider than each of the bus widths it is given ([32] when none is
    given); in particular an empty list of bus widths never makes it
    raise. *)
Theorem gen_include_returns_exactly (self : DataStructGen)
  (include_file : option string) (bus_widths : option (list Z)) :
  returns (gen_include self include_file bus_widths)
  = forallb (fun w => forallb (fitsb w) (fields self))
            (widths_or_default bus_widths)
  /\ returns (gen_include self include_file (Some [])) = true.
Proof.
  assert (forall bw,
             returns (gen_include self include_file bw)
             = forallb (fun w => forallb (fitsb w) (fields self))
                       (widths_or_default bw)) as H.
  { intros bw.
    set (self1 := {| ds_name := ds_name self; fields := fields self;
                     stream_bus_widths := widths_or_default bw |}).
    pose proof (stream_sections_returns_iff self1 (widths_or_default bw)) as Hs.
    cbn [fields self1] in Hs. rewrite <- Hs.
    unfold gen_include. fold (widths_or_default bw). fold self1.
    destruct (stream_sections self1 (widths_or_default bw)); [|reflexivity].
    cbn [bind]. destruct (gen_stream_dispatch self1). reflexivity. }
  split; [apply H|]. rewrite H. reflexivity.
Qed.

(** ** What the joined text contains *)

Lemma contains_refl (s : string) : contains s s.
Proof. exists EmptyString, EmptyString. now rewrite append_nil_r. Qed.

Lemma contains_extend (sub s pre post : string) :
  contains sub s -> contains sub (pre +:+ s +:+ post).
Proof.
  intros (p & q & ->). exists (pre +:+ p), (q +:+ post).
  norm_text. reflexivity.
Qed.

Lemma join_cons (sep x : string) (l : list string) :
  l <> [] -> join sep (x :: l) = x +:+ sep +:+ join sep l.
Proof. destruct l; [contradiction|reflexivity]. Qed.

Lemma contains_join (sep l : string) (ls : list string) :
  In l ls -> contains l (join sep ls).
Proof.
  induction ls as [|x ls IH]; intros Hin; [contradiction|].
  destruct ls as [|y ls].
  - destruct Hin as [->|[]]. apply contains_refl.
  - rewrite join_cons by discriminate.
    destruct Hin as [->|Hin].
    + exists EmptyString. eexists. reflexivity.
    + destruct (IH Hin) as (p & q & Heq). rewrite Heq.
      exists (x +:+ sep +:+ p), q. norm_text. reflexivity.
Qed.

Lemma join_adjacent (sep a b : string) (l1 l2 : list string) :
  contains (a +:+ sep +:+ b) (join sep (l1 ++ a :: b :: l2)).
Proof.
  induction l1 as [|x l1 IH].
  - cbn [app]. rewrite join_cons by discriminate.
    destruct l2 as [|c l2].
    + apply contains_refl.
    + rewrite join_cons by discriminate.
      exists EmptyString, (sep +:+ join sep (c :: l2)).
      norm_text. reflexivity.
  - cbn [app]. rewrite join_cons by (destruct l1; discriminate).
    destruct IH as (p & q & Heq). rewrite Heq.
    exists (x +:+ sep +:+ p), q. norm_text. reflexivity.
Qed.

(** ** The dispatchers *)

Lemma dispatch_branch_of (call : Z -> string) (ws : list Z) (w : Z) :
  In w ws ->
  forall i,
  exists l1 l2 opening,
    dispatch_branches call i ws
    = l1
      ++ (opening +:+ "constexpr (bus_bits == " +:+ str w +:+ ") {")
         :: call w :: l2.
Proof.
  induction ws as [|v ws IH]; intros Hin i; [contradiction|].
  cbn [dispatch_branches app].
  destruct Hin as [->|Hin].
  - exists [], (dispatch_branches call (S i) ws).
    destruct i; [exists "        if " | exists "        } else if "];
      reflexivity.
  - destruct (IH Hin (S i)) as (l1 & l2 & opening & Heq). rewrite Heq.
    eexists (_ :: _ :: l1), l2, opening. reflexivity.
Qed.

Lemma contains_trans (a b c : string) :
  contains a b -> contains b c -> contains a c.
Proof.
  intros (p & q & ->) (p' & q' & ->). exists (p' +:+ p), (q +:+ q').
  norm_text. reflexivity.
Qed.

Lemma dispatch_branch_forwards (self : DataStructGen) (w : Z) :
  In w (stream_bus_widths self) ->
  contains ("constexpr (bus_bits == " +:+ str w +:+ ") {" +:+ nl
            +:+ "            stream_write_" +:+ str w +:+ "(out, tlast);")
           (fst (gen_stream_dispatch self))
  /\ contains ("constexpr (bus_bits == " +:+ str w +:+ ") {" +:+ nl
               +:+ "            return stream_read_" +:+ str w +:+ "(in);")
              (snd (gen_stream_dispatch self)).
Proof.
  intros Hin. unfold gen_stream_dispatch.
  destruct (stream_bus_widths self) as [|w0 ws] eqn:Hws; [contradiction|].
  cbn [fst snd]. split.
  - destruct (dispatch_branch_of
                (fun w => "            stream_write_" +:+ str w +:+ "(out, tlast);")
                (w0 :: ws) w Hin O) as (l1 & l2 & opening & Heq).
    rewrite Heq. unfold write_sig, read_sig. cbv zeta.
    rewrite <- !app_assoc. cbn [app].
    match goal with
    | |- contains _ (join nl (?a :: ?b :: ?c :: l1 ++ ?x :: ?y :: ?rest)) =>
        change (a :: b :: c :: l1 ++ x :: y :: rest)
          with ((a :: b :: c :: l1) ++ x :: y :: rest);
        destruct (join_adjacent nl x y (a :: b :: c :: l1) rest)
          as (p & q & Hj); rewrite Hj
    end.
    exists (p +:+ opening), q. norm_text. reflexivity.
  - destruct (dispatch_branch_of
                (fun w => "            return stream_read_" +:+ str w +:+ "(in);")
                (w0 :: ws) w Hin O) as (l1 & l2 & opening & Heq).
    rewrite Heq. unfold write_sig, read_sig. cbv zeta.
    rewrite <- !app_assoc. cbn [app].
    match goal with
    | |- contains _ (join nl (?a :: ?b :: ?c :: l1 ++ ?x :: ?y :: ?rest)) =>
        change (a :: b :: c :: l1 ++ x :: y :: rest)
          with ((a :: b :: c :: l1) ++ x :: y :: rest);
        destruct (join_adjacent nl x y (a :: b :: c :: l1) rest)
          as (p & q & Hj); rewrite Hj
    end.
    exists (p +:+ opening), q. norm_text. reflexivity.
Qed.

(** X3: when bus widths are configured, both dispatchers have, for every
    configured width [w], a branch on [bus_bits == w] whose first statement
    forwards to the routine of that width, [stream_write_w] or
    [stream_read_w]. *)
Theorem dispatch_covers_widths (self : DataStructGen) (w : Z)
  (Hin : In w (stream_bus_widths self)) :
  contains ("constexpr (bus_bits == " +:+ str w +:+ ") {" +:+ nl
            +:+ "            stream_write_" +:+ str w +:+ "(out, tlast);")
           (fst (gen_stream_dispatch self))
  /\ contains ("constexpr (bus_bits == " +:+ str w +:+ ") {" +:+ nl
               +:+ "            return stream_read_" +:+ str w +:+ "(in);")
              (snd (gen_stream_dispatch self)).
Proof. exact (dispatch_branch_forwards self w Hin). Qed.

Lemma dispatch_covers_widths_witness :
  contains ("constexpr (bus_bits == " +:+ str 64 +:+ ") {" +:+ nl
            +:+ "            stream_write_" +:+ str 64 +:+ "(out, tlast);")
           (fst (gen_stream_dispatch
                   {| ds_name := "Msg"; fields := [];
                      stream_bus_widths := [32; 64] |})).
Proof.
  apply (dispatch_covers_widths
           {| ds_name := "Msg"; fields := []; stream_bus_widths := [32; 64] |}
           64).
  simpl. right. left. reflexivity.
Defined.

Lemma stream_sections_in (self : DataStructGen) (ws : list Z) (w : Z) :
  forall ls,
    stream_sections self ws = Ok ls -> In w ws ->
    exists r wr,
      gen_stream_read self w = Ok r /\ gen_stream_write self w = Ok wr
      /\ In r ls /\ In wr ls.
Proof.
  induction ws as [|v ws IH]; intros ls Hls Hin; [contradiction|].
  cbn [stream_sections] in Hls.
  destruct (gen_stream_read self v) as [r|] eqn:Hr; [|discriminate].
  destruct (gen_stream_write self v) as [wr|] eqn:Hwr; [|discriminate].
  destruct (stream_sections self ws) as [rest|] eqn:Hrest; [|discriminate].
  cbn [bind] in Hls. injection Hls as <-.
  destruct Hin as [->|Hin].
  - exists r, wr. repeat split; try assumption; cbn; auto.
  - destruct (IH rest eq_refl Hin) as (r' & wr' & H1 & H2 & H3 & H4).
    exists r', wr'. repeat split; try assumption;
      cbn [app]; do 4 right; assumption.
Qed.

(** Each routine opens with its signature, which names it after the bus
    width. *)
Lemma routine_signatures (self : DataStructGen) (W : Z) :
  Forall (fits W) (fields self) ->
  exists r wr,
    gen_stream_read self W = Ok r
    /\ gen_stream_write self W = Ok wr
    /\ contains ("    bool stream_read_" +:+ str W
                 +:+ "(hls::stream<Tstream>& in) {") r
    /\ contains ("    void stream_write_" +:+ str W
                 +:+ "(hls::stream<Tstream>& out, bool tlast = true) const {")
                wr.
Proof.
  intros Hfit.
  pose proof (check_widths_ok _ _ Hfit) as Hchk.
  destruct (read_loop_pack W (fields self) Hfit None (read_header self W))
    as [_ Hread].
  destruct (write_loop_pack W (total_words W (fields self)) (fields self)
              Hfit None (write_header self W) I)
    as [_ Hwrite].
  change (state_at (read_header self W) None)
    with (init_state (read_header self W)) in Hread.
  change (state_at (write_header self W) None)
    with (init_state (write_header self W)) in Hwrite.
  unfold gen_stream_read, gen_stream_write, gen_stream_read_lines,
    gen_stream_write_lines.
  rewrite Hchk, Hread, Hwrite. cbn [bind state_at lines].
  do 2 eexists. split; [reflexivity|]. split; [reflexivity|].
  split; apply contains_join; unfold read_header, write_header;
    rewrite <- !app_assoc; cbn [app]; right; left; reflexivity.
Qed.

(** X4: when every field fits every bus width, every routine a dispatcher
    forwards to is defined in the same include text.  For each bus width
    [w] the text holds the routines [gen_stream_read] and [gen_stream_write]
    produce for [w], whose signatures name them [stream_read_w] and
    [stream_write_w]; and it holds the two dispatchers of the record that
    remembers these widths, whose branches on [bus_bits == w] call
    [stream_read_w] and [stream_write_w]. *)
Theorem include_defines_dispatched (self : DataStructGen)
  (include_file : option string) (bus_widths : option (list Z)) (w : Z)
  (Hfit : fits_all (fields self) (widths_or_default bus_widths))
  (Hin : In w (widths_or_default bus_widths)) :
  let read_sig_w :=
    "    bool stream_read_" +:+ str w +:+ "(hls::stream<Tstream>& in) {" in
  let write_sig_w :=
    "    void stream_write_" +:+ str w
    +:+ "(hls::stream<Tstream>& out, bool tlast = true) const {" in
  let read_call_w :=
    "constexpr (bus_bits == " +:+ str w +:+ ") {" +:+ nl
    +:+ "            return stream_read_" +:+ str w +:+ "(in);" in
  let write_call_w :=
    "constexpr (bus_bits == " +:+ str w +:+ ") {" +:+ nl
    +:+ "            stream_write_" +:+ str w +:+ "(out, tlast);" in
  exists self' text r wr,
    gen_include self include_file bus_widths = Ok (self', text)
    /\ In w (stream_bus_widths self')
    /\ gen_stream_read self' w = Ok r /\ contains r text
    /\ gen_stream_write self' w = Ok wr /\ contains wr text
    /\ contains (fst (gen_stream_dispatch self')) text
    /\ contains (snd (gen_stream_dispatch self')) text
    (* the routines are defined under the names the dispatchers call *)
    /\ contains read_sig_w r /\ contains write_sig_w wr
    /\ contains write_call_w (fst (gen_stream_dispatch self'))
    /\ contains read_call_w (snd (gen_stream_dispatch self'))
    /\ contains read_sig_w text /\ contains write_sig_w text
    /\ contains write_call_w text /\ contains read_call_w text.
Proof.
  intros read_sig_w write_sig_w read_call_w write_call_w.
  set (self1 := {| ds_name := ds_name self; fields := fields self;
                   stream_bus_widths := widths_or_default bus_widths |}).
  destruct (stream_sections_returns self1 (widths_or_default bus_widths) Hfit)
    as [ls Hls].
  destruct (stream_sections_in self1 _ w ls Hls Hin)
    as (r & wr & Hr & Hwr & Hinr & Hinwr).
  assert (Forall (fits w) (fields self1)) as Hfitw.
  { unfold fits_all in Hfit. rewrite Forall_forall in Hfit.
    exact (Hfit w Hin). }
  destruct (routine_signatures self1 w Hfitw)
    as (r' & wr' & Hr' & Hwr' & Hsr & Hsw).
  rewrite Hr in Hr'. rewrite Hwr in Hwr'.
  injection Hr' as <-. injection Hwr' as <-.
  destruct (dispatch_branch_forwards self1 w Hin) as [Hcw Hcr].
  unfold gen_include. fold (widths_or_default bus_widths). fold self1.
  rewrite Hls. cbn [bind].
  destruct (gen_stream_dispatch self1) as [wd rd] eqn:Hd.
  cbn [fst snd] in Hcw, Hcr.
  exists self1. eexists. exists r, wr.
  rewrite Hd. cbn [fst snd].
  split; [reflexivity|]. split; [exact Hin|]. split; [exact Hr|].
  match goal with
  | |- contains r ?t /\ _ => set (text := t)
  end.
  assert (contains r text) as Hrt.
  { apply contains_join. apply in_or_app. right. apply in_or_app. now left. }
  assert (contains wr text) as Hwt.
  { apply contains_join. apply in_or_app. right. apply in_or_app. now left. }
  assert (contains wd text) as Hwdt.
  { apply contains_join. apply in_or_app. right. apply in_or_app. right.
    left. reflexivity. }
  assert (contains rd text) as Hrdt.
  { apply contains_join. apply in_or_app. right. apply in_or_app. right.
    right. right. left. reflexivity. }
  split; [exact Hrt|].
  split; [exact Hwr|]. split; [exact Hwt|].
  split; [exact Hwdt|]. split; [exact Hrdt|].
  split; [exact Hsr|]. split; [exact Hsw|].
  split; [exact Hcw|]. split; [exact Hcr|].
  split; [exact (contains_trans _ _ _ Hsr Hrt)|].
  split; [exact (contains_trans _ _ _ Hsw Hwt)|].
  split; [exact (contains_trans _ _ _ Hcw Hwdt)|].
  exact (contains_trans _ _ _ Hcr Hrdt).
Qed.

Lemma include_defines_dispatched_witness :
  exists self' text r wr,
    gen_include sample_ab None (Some [32; 64]) = Ok (self', text)
    /\ In 64 (stream_bus_widths self')
    /\ gen_stream_read self' 64 = Ok r /\ contains r text
    /\ gen_stream_write self' 64 = Ok wr /\ contains wr text
    /\ contains "    bool stream_read_64(hls::stream<Tstream>& in) {" text
    /\ contains "            return stream_read_64(in);" text.
Proof.
  assert (fits_all (fields sample_ab) (widths_or_default (Some [32; 64])))
    as Hfit by (repeat constructor; simpl; lia).
  assert (In 64 (widths_or_default (Some [32; 64]))) as Hin
    by (simpl; auto).
  destruct (include_defines_dispatched sample_ab None (Some [32; 64]) 64
              Hfit Hin)
    as (self' & text & r & wr & H1 & H2 & H3 & H4 & H5 & H6 & _ & _ & _ & _
        & _ & _ & H7 & _ & _ & H8).
  exists self', text, r, wr.
  split; [exact H1|]. split; [exact H2|]. split; [exact H3|].
  split; [exact H4|]. split; [exact H5|]. split; [exact H6|].
  split; [exact H7|].
  refine (contains_trans _ _ _ _ H8).
  exists ("constexpr (bus_bits == " +:+ str 64 +:+ ") {" +:+ nl), EmptyString.
  reflexivity.
Defined.

(** ** Appending a field *)

Lemma pack_from_app (W : Z) (fs gs : list FieldInfo) :
  forall cur,
    pack_from W cur (fs ++ gs)
    = pack_from W cur fs ++ pack_from W (cur_after W cur fs) gs.
Proof.
  induction fs as [|f fs IH]; intros cur; [reflexivity|].
  cbn [app]. rewrite (pack_from_cons W f (fs ++ gs)), IH.
  rewrite (pack_from_cons W f fs), (cur_after_cons W f fs).
  now rewrite <- app_assoc.
Qed.

(** X5: [add_field] keeps the record's name and remembered widths and puts
    the field last, and the placements of the fields already there do not
    change: the new layout is packed as the old one followed by one
    placement for the new field, and the word count grows by one exactly
    when that field opens a word. *)
Theorem add_field_keeps_placements (self : DataStructGen) (f : FieldInfo)
  (W : Z) :
  ds_name (add_field self f) = ds_name self
  /\ stream_bus_widths (add_field self f) = stream_bus_widths self
  /\ exists p,
       pack W (fields (add_field self f)) = pack W (fields self) ++ [p]
       /\ pl_field p = f
       /\ knapsack_arrival_count W (fields (add_field self f))
          = knapsack_arrival_count W (fields self)
            + (if pl_opens p then 1 else 0).
Proof.
  split; [reflexivity|]. split; [reflexivity|].
  cbn [add_field fields]. unfold pack.
  rewrite pack_from_app.
  destruct (pack_head W (cur_after W None (fields self)) f)
    as (p & Hp & Hf & _).
  rewrite Hp. exists p. split; [reflexivity|]. split; [exact Hf|].
  unfold knapsack_arrival_count.
  pose proof (pack_opened W (fields self ++ [f]) None) as H1.
  pose proof (pack_opened W (fields self) None) as H2.
  cbn [option_map] in H1, H2.
  rewrite <- H1, <- H2, pack_from_app, Hp, filter_app, length_app.
  cbn [filter]. destruct (pl_opens p); cbn [List.length]; lia.
Qed.

(** ** How many words *)

Lemma arrivals_le_length (W : Z) (fs : list FieldInfo) :
  forall used,
    0 <= arrivals_from W used fs <= Z.of_nat (List.length fs).
Proof.
  induction fs as [|f fs IH]; intros used; cbn [arrivals_from List.length];
    [lia|].
  rewrite Nat2Z.inj_succ.
  destruct used as [u|].
  - destruct (W <? u + width (dtype f)).
    + specialize (IH (Some (width (dtype f)))). lia.
    + specialize (IH (Some (u + width (dtype f)))). lia.
  - specialize (IH (Some (width (dtype f)))). lia.
Qed.

Lemma arrivals_capacity (W : Z) (fs : list FieldInfo) :
  Forall (fits W) fs ->
  forall u,
    u <= W ->
    total_bits fs + u <= W * arrivals_from W (Some u) fs + W.
Proof.
  induction 1 as [|f fs Hf _ IH]; intros u Hu;
    cbn [total_bits fold_right arrivals_from]; [lia|].
  fold (total_bits fs). unfold fits in Hf.
  destruct (Z.ltb_spec W (u + width (dtype f))) as [Hlt|Hge].
  - specialize (IH (width (dtype f)) Hf).
    rewrite Z.mul_add_distr_l. lia.
  - specialize (IH (u + width (dtype f)) Hge). lia.
Qed.

Lemma arrivals_twice (W : Z) (fs : list FieldInfo) :
  Forall nonneg fs ->
  forall u,
    0 <= u ->
    W * arrivals_from W (Some u) fs <= 2 * total_bits fs + u.
Proof.
  induction 1 as [|f fs Hf _ IH]; intros u Hu;
    cbn [total_bits fold_right arrivals_from]; [lia|].
  fold (total_bits fs). unfold nonneg in Hf.
  destruct (Z.ltb_spec W (u + width (dtype f))) as [Hlt|Hge].
  - specialize (IH (width (dtype f)) Hf).
    rewrite Z.mul_add_distr_l. lia.
  - specialize (IH (u + width (dtype f)) ltac:(lia)). lia.
Qed.

(** X6: for a layout with at least one field, all of width zero or more and
    no wider than the bus, the greedy word count [n] is at least 1 and at
    most the number of fields, the words have room for all the bits
    ([total_bits <= W * n]), and packing is never worse than about twice
    the bit count: [W * (n - 1) <= 2 * total_bits]. *)
Theorem word_count_bounds (fs : list FieldInfo) (W : Z)
  (Hne : fs <> [])
  (Hfit : Forall (fits W) fs) (Hnn : Forall nonneg fs) :
  let n := knapsack_arrival_count W fs in
  1 <= n <= Z.of_nat (List.length fs)
  /\ n = total_words W fs
  /\ total_bits fs <= W * n
  /\ W * (n - 1) <= 2 * total_bits fs.
Proof.
  intros n. subst n. unfold knapsack_arrival_count.
  assert (arrivals_from W None fs = total_words W fs) as Htot.
  { unfold total_words.
    change (count_pass W fs 0 0)
      with (count_pass W fs (cur_ind0 None) (cur_count None)).
    rewrite (count_pass_cur W fs None I). cbn [snd].
    pose proof (cur_after_arrivals W fs None) as Hc.
    cbn [cur_count option_map] in Hc. lia. }
  destruct fs as [|f fs]; [contradiction|].
  split; [|split; [exact Htot|]].
  - pose proof (arrivals_le_length W (f :: fs) None) as H.
    cbn [arrivals_from] in *.
    pose proof (arrivals_le_length W fs (Some (width (dtype f)))). lia.
  - cbn [arrivals_from total_bits fold_right]. fold (total_bits fs).
    inversion Hfit as [|? ? Hf Hfs]; subst.
    inversion Hnn as [|? ? Hn Hns]; subst.
    unfold fits in Hf. unfold nonneg in Hn.
    pose proof (arrivals_capacity W fs Hfs (width (dtype f)) Hf).
    pose proof (arrivals_twice W fs Hns (width (dtype f)) Hn).
    rewrite Z.mul_add_distr_l.
    replace (1 + arrivals_from W (Some (width (dtype f))) fs - 1)
      with (arrivals_from W (Some (width (dtype f))) fs) by lia.
    lia.
Qed.

Lemma word_count_bounds_witness :
  1 <= knapsack_arrival_count 32 (fields sample_mixed)
    <= Z.of_nat (List.length (fields sample_mixed))
  /\ total_bits (fields sample_mixed)
     <= 32 * knapsack_arrival_count 32 (fields sample_mixed).
Proof.
  assert (fields sample_mixed <> []) as Hne by discriminate.
  assert (Forall (fits 32) (fields sample_mixed)) as Hfit
    by (repeat constructor; unfold fits; simpl; lia).
  assert (Forall nonneg (fields sample_mixed)) as Hnn
    by (repeat constructor; unfold nonneg; simpl; lia).
  pose proof (word_count_bounds (fields sample_mixed) 32 Hne Hfit Hnn) as H.
  cbv zeta in H. destruct H as (H1 & _ & H3 & _). split; assumption.
Defined.

(** ** Names of the word variables *)

Lemma to_int_proper (z : Z) :
  Z.to_int z <> Decimal.Pos Decimal.Nil
  /\ Z.to_int z <> Decimal.Neg Decimal.Nil.
Proof.
  destruct z as [|p|p]; simpl; split; try discriminate;
    intros [= H]; now apply (DecimalPos.Unsigned.to_uint_nonnil p).
Qed.

Lemma str_inj (a b : Z) : str a = str b -> a = b.
Proof.
  unfold str. intros H.
  destruct (to_int_proper a) as [Ha1 Ha2].
  destruct (to_int_proper b) as [Hb1 Hb2].
  pose proof (NilZero.isi _ Ha1 Ha2) as Hia.
  pose proof (NilZero.isi _ Hb1 Hb2) as Hib.
  rewrite H in Hia. rewrite Hia in Hib. injection Hib as Hab.
  now apply DecimalZ.to_int_inj.
Qed.

(** X7: two placements are given the same word variable name exactly when
    they are in the same word, so the words of a routine are declared under
    pairwise different names. *)
Theorem word_names_distinct (p q : placement) :
  String.eqb (word_name_of p) (word_name_of q) = (pl_word p =? pl_word q).
Proof.
  unfold word_name_of.
  destruct (Z.eqb_spec (pl_word p) (pl_word q)) as [Heq|Hneq].
  - rewrite Heq. apply String.eqb_refl.
  - apply String.eqb_neq. intros H. apply Hneq.
    cbn in H. injection H as H. now apply str_inj.
Qed.

(** ** Encode against decode *)

(** X8: for an integer or an enumeration, the statement [write_expr]
    returns assigns to exactly the expression [read_expr] returns for the
    same word, width and offset (the whole word or the same bit range), and
    the two raise together. *)
Theorem encode_targets_decode (t : BaseType) (var_name word_name : string)
  (W i : Z) (Hkind : is_float t = false) :
  write_expr t var_name word_name W i
  = (e <- read_expr t word_name W i ;; Ok (e +:+ " = " +:+ var_name +:+ ";")).
Proof.
  unfold write_expr, read_expr.
  destruct (W <? width t + i); [reflexivity|].
  destruct t as [bw sg| |en ee bw]; [|discriminate|]; cbn;
    destruct ((bw =? W) && (i =? 0)); cbn [bind]; norm_text; reflexivity.
Qed.

Lemma encode_targets_decode_witness :
  write_expr (IntType 16 true) "b" "w0.data" 32 8
  = (e <- read_expr (IntType 16 true) "w0.data" 32 8 ;;
     Ok (e +:+ " = " +:+ "b" +:+ ";")).
Proof.
  apply (encode_targets_decode (IntType 16 true) "b" "w0.data" 32 8).
  reflexivity.
Defined.

(** ** More on enumerations *)

Lemma enum_loop_assign (es : list entry) :
  forall acc c,
    forallb is_label_or_pair es = true ->
    enum_loop es acc c
    = Ok (acc ++ assign_values es c, fold_left counter_step es c).
Proof.
  induction es as [|e es IH]; intros acc c Hes; cbn in *.
  - now rewrite app_nil_r.
  - destruct e as [lbl|lbl v|]; cbn in Hes; try discriminate;
      rewrite IH by assumption; cbn; now rewrite <- app_assoc.
Qed.

Lemma enum_loop_bad (es : list entry) :
  forall acc c,
    forallb is_label_or_pair es = false ->
    enum_loop es acc c
    = Raise (ValueError "Enum entries must be str or (str, int)").
Proof.
  induction es as [|e es IH]; intros acc c Hes; cbn in *; [discriminate|].
  destruct e as [lbl|lbl v|]; cbn in Hes; try reflexivity; now apply IH.
Qed.

(** With entries that are labels or pairs the loop never raises; what
    remains is the choice of the width. *)
Lemma enum_init_valid (nm : string) (es : list entry) (w : option Z) :
  forallb is_label_or_pair es = true ->
  EnumType_init nm es w
  = match w with
    | Some w0 => Ok (EnumType nm (assign_values es 0) w0)
    | None =>
        l <- ceil_log2 (next_auto_value es) ;;
        Ok (EnumType nm (assign_values es 0) (Z.max 1 l))
    end.
Proof.
  intros Hes. unfold EnumType_init.
  rewrite (enum_loop_assign es [] 0 Hes). cbn [bind app].
  fold (next_auto_value es).
  destruct w as [w0|]; [reflexivity|].
  destruct (ceil_log2 (next_auto_value es)); reflexivity.
Qed.

(** X9: the outcomes of [EnumType.__init__] on entries that are strings,
    (name, integer) tuples or values that are neither strings nor tuples.
    An entry of the last kind raises [ValueError], with or without an
    explicit width.  Without such an entry, an explicit width is stored as
    given, whatever its value; without an explicit width the constructor
    raises a math domain error when the auto-counter ends at zero or below,
    returns when it ends above, and then stores
    [max(1, ceil(log2(counter)))] as long as the counter is at most 2^48.
    The stored entries are the labels in order with their assigned
    values. *)
Theorem enum_init_outcomes (nm : string) (es : list entry) :
  (forallb is_label_or_pair es = false ->
   forall w,
     EnumType_init nm es w
     = Raise (ValueError "Enum entries must be str or (str, int)"))
  /\ (forallb is_label_or_pair es = true ->
      (forall w0,
          EnumType_init nm es (Some w0)
          = Ok (EnumType nm (assign_values es 0) w0))
      /\ (next_auto_value es <= 0 ->
          EnumType_init nm es None = Raise (ValueError "math domain error"))
      /\ (0 < next_auto_value es ->
          exists l,
            EnumType_init nm es None
            = Ok (EnumType nm (assign_values es 0) (Z.max 1 l)))
      /\ (0 < next_auto_value es <= 2 ^ 48 ->
          EnumType_init nm es None
          = Ok (EnumType nm (assign_values es 0)
                         (Z.max 1 (Z.log2_up (next_auto_value es)))))).
Proof.
  split.
  - intros Hes w. unfold EnumType_init.
    now rewrite (enum_loop_bad es [] 0 Hes).
  - intros Hes. repeat split.
    + intros w0. now rewrite enum_init_valid.
    + intros Hle. rewrite enum_init_valid by assumption.
      apply ceil_log2_domain in Hle. now rewrite Hle.
    + intros Hpos. rewrite enum_init_valid by assumption.
      destruct (ceil_log2 (next_auto_value es)) as [l|e] eqn:Hl.
      * now exists l.
      * exfalso. unfold ceil_log2 in Hl.
        destruct (Z.leb_spec (next_auto_value es) 0); [lia|].
        destruct (double_of_int (next_auto_value es)); discriminate.
    + intros [Hpos Hsmall]. rewrite enum_init_valid by assumption.
      now rewrite (ceil_log2_small _ Hpos Hsmall).
Qed.

Lemma enum_init_outcomes_witness :
  EnumType_init "Op" [ EStr "A"; ETuple "B" 10; EStr "C" ] (Some (-3))
  = Ok (EnumType "Op" [ ("A", 0); ("B", 10); ("C", 11) ] (-3))
  /\ EnumType_init "Op" [ EStr "A"; ETuple "B" 10; EStr "C" ] None
     = Ok (EnumType "Op" [ ("A", 0); ("B", 10); ("C", 11) ] 4)
  /\ EnumType_init "Op" [ EStr "A"; EOther ] (Some 3)
     = Raise (ValueError "Enum entries must be str or (str, int)")
  /\ EnumType_init "Op" [ ETuple "A" (-1) ] None
     = Raise (ValueError "math domain error").
Proof.
  destruct (enum_init_outcomes "Op" [ EStr "A"; ETuple "B" 10; EStr "C" ])
    as [_ Hgood].
  destruct (Hgood eq_refl) as (Hsome & _ & _ & Hnone).
  destruct (enum_init_outcomes "Op" [ EStr "A"; EOther ]) as [Hbad _].
  destruct (enum_init_outcomes "Op" [ ETuple "A" (-1) ]) as [_ Hlow].
  destruct (Hlow eq_refl) as (_ & Hdom & _).
  split; [exact (Hsome (-3))|].
  split; [apply Hnone; vm_compute; split; [reflexivity|discriminate]|].
  split; [exact (Hbad eq_refl (Some 3))|].
  apply Hdom. vm_compute. discriminate.
Defined.

Lemma assign_values_labels (ls : list string) :
  forall c,
    map fst (assign_values (map EStr ls) c) = ls
    /\ map snd (assign_values (map EStr ls) c)
       = word_indices c (List.length ls)
    /\ fold_left counter_step (map EStr ls) c = c + Z.of_nat (List.length ls).
Proof.
  induction ls as [|l ls IH]; intros c.
  - cbn. repeat split. lia.
  - destruct (IH (c + 1)) as (H1 & H2 & H3).
    cbn [map assign_values fst snd List.length word_indices fold_left
         counter_step].
    rewrite H1, H2, H3, Nat2Z.inj_succ. repeat split. lia.
Qed.

Lemma word_indices_bounds (n : nat) :
  forall k, Forall (fun v => k <= v < k + Z.of_nat n) (word_indices k n).
Proof.
  induction n as [|n IH]; intros k; [constructor|].
  cbn [word_indices]. rewrite Nat2Z.inj_succ. constructor; [lia|].
  eapply Forall_impl; [|apply (IH (k + 1))]. cbn. intros v Hv. lia.
Qed.

(** X10: an enumeration made of bare labels only (at least one) and no
    explicit width is constructed, its labels are stored in order with the
    values 0, 1, 2, ..., and every stored value is representable in the
    default width: [0 <= value < 2^width].  (The labels are at most 2^48,
    where the logarithm is exact; no list is that long.) *)
Theorem bare_enum_values_fit (nm : string) (ls : list string)
  (Hne : ls <> [])
  (Hsmall : Z.of_nat (List.length ls) <= 2 ^ 48) :
  exists stored w,
    EnumType_init nm (map EStr ls) None = Ok (EnumType nm stored w)
    /\ map fst stored = ls
    /\ map snd stored = word_indices 0 (List.length ls)
    /\ Forall (fun v => 0 <= v < 2 ^ w) (map snd stored).
Proof.
  destruct (assign_values_labels ls 0) as (H1 & H2 & H3).
  assert (forallb is_label_or_pair (map EStr ls) = true) as Hes.
  { clear. induction ls; [reflexivity|exact IHls]. }
  assert (next_auto_value (map EStr ls) = Z.of_nat (List.length ls)) as Hn
    by (unfold next_auto_value; rewrite H3; lia).
  assert (0 < Z.of_nat (List.length ls)) as Hpos
    by (destruct ls; [contradiction|cbn [List.length]; lia]).
  rewrite (enum_init_valid _ _ _ Hes), Hn.
  rewrite (ceil_log2_small _ Hpos Hsmall). cbn [bind].
  do 2 eexists. split; [reflexivity|]. split; [exact H1|]. split; [exact H2|].
  rewrite H2.
  eapply Forall_impl; [|apply (word_indices_bounds (List.length ls) 0)].
  cbn beta. intros v Hv. split; [lia|].
  set (n := Z.of_nat (List.length ls)) in *.
  assert (n <= 2 ^ Z.max 1 (Z.log2_up n)) as Hup.
  { destruct (Z.eq_dec n 1) as [E|E].
    - rewrite E. vm_compute. discriminate.
    - pose proof (Z.log2_up_spec n ltac:(lia)) as [_ Hu].
      assert (0 < Z.log2_up n) by (apply Z.log2_up_pos; lia).
      rewrite Z.max_r by lia. exact Hu. }
  lia.
Qed.

Lemma bare_enum_values_fit_witness :
  exists stored w,
    EnumType_init "Color" (map EStr ["RED"; "GREEN"; "BLUE"]) None
    = Ok (EnumType "Color" stored w)
    /\ map fst stored = ["RED"; "GREEN"; "BLUE"]
    /\ Forall (fun v => 0 <= v < 2 ^ w) (map snd stored).
Proof.
  destruct (bare_enum_values_fit "Color" ["RED"; "GREEN"; "BLUE"])
    as (stored & w & H1 & H2 & _ & H4).
  - discriminate.
  - vm_compute. discriminate.
  - exists stored, w. repeat split; assumption.
Defined.

Lemma assign_values_app (es1 es2 : list entry) :
  forall c,
    assign_values (es1 ++ es2) c
    = assign_values es1 c
      ++ assign_values es2 (fold_left counter_step es1 c).
Proof.
  induction es1 as [|e es1 IH]; intros c; [reflexivity|].
  destruct e as [lbl|lbl v|]; cbn; now rewrite IH.
Qed.

(** X11: the default width looks only at the last explicit pair and the
    bare labels after it.  For entries [es ++ [(n, v)] ++ labels] the
    auto-counter ends at [v + 1 + len(labels)] and, when that is at most
    2^48, the width is [max(1, ceil(log2(v + 1 + len(labels))))], whatever
    values the earlier entries [es] were stored with. *)
Theorem enum_width_from_last_pair (nm : string) (es : list entry)
  (n : string) (v : Z) (ls : list string)
  (Hes : forallb is_label_or_pair es = true)
  (Hpos : 0 < v + 1 + Z.of_nat (List.length ls))
  (Hsmall : v + 1 + Z.of_nat (List.length ls) <= 2 ^ 48) :
  next_auto_value (es ++ ETuple n v :: map EStr ls)
  = v + 1 + Z.of_nat (List.length ls)
  /\ EnumType_init nm (es ++ ETuple n v :: map EStr ls) None
     = Ok (EnumType nm
             (assign_values es 0
              ++ (n, v) :: assign_values (map EStr ls) (v + 1))
             (Z.max 1 (Z.log2_up (v + 1 + Z.of_nat (List.length ls))))).
Proof.
  assert (next_auto_value (es ++ ETuple n v :: map EStr ls)
          = v + 1 + Z.of_nat (List.length ls)) as Hn.
  { unfold next_auto_value. rewrite fold_left_app.
    cbn [fold_left counter_step].
    now destruct (assign_values_labels ls (v + 1)) as (_ & _ & ->). }
  split; [exact Hn|].
  assert (forallb is_label_or_pair (es ++ ETuple n v :: map EStr ls) = true)
    as Hall.
  { rewrite forallb_app, Hes. cbn. clear.
    induction ls; [reflexivity|exact IHls]. }
  rewrite (enum_init_valid _ _ _ Hall), Hn.
  rewrite (ceil_log2_small _ Hpos Hsmall). cbn [bind].
  rewrite assign_values_app. reflexivity.
Qed.

Lemma enum_width_from_last_pair_witness :
  EnumType_init "Op" ([ETuple "BIG" 100] ++ ETuple "LOW" 0 :: map EStr []) None
  = Ok (EnumType "Op" [("BIG", 100); ("LOW", 0)] 1).
Proof.
  apply (enum_width_from_last_pair "Op" [ETuple "BIG" 100] "LOW" 0 []
           eq_refl eq_refl).
  vm_compute. discriminate.
Defined.

(** ** The include guard *)

Lemma map_string_app (f : ascii -> ascii) (a b : string) :
  map_string f (a +:+ b) = map_string f a +:+ map_string f b.
Proof. induction a as [|c a IH]; cbn; [reflexivity|now rewrite IH]. Qed.

Lemma upper_lower_ascii (c : ascii) :
  upper_ascii (lower_ascii c) = upper_ascii c.
Proof. destruct c as [[] [] [] [] [] [] [] []]; reflexivity. Qed.

Lemma upper_lower (s : string) : upper (lower s) = upper s.
Proof.
  unfold upper, lower.
  induction s as [|c s IH]; cbn [map_string]; [reflexivity|].
  now rewrite IH, upper_lower_ascii.
Qed.

Lemma guard_char_clean (c : ascii) :
  guard_clean
    ((fun c => if Ascii.eqb c "-" then "_"%char else c)
       ((fun c => if Ascii.eqb c "." then "_"%char else c) (upper_ascii c)))
  = true.
Proof. destruct c as [[] [] [] [] [] [] [] []]; reflexivity. Qed.

Lemma guard_of_clean (s : string) : string_forall guard_clean (guard_of s) = true.
Proof.
  induction s as [|c s IH]; [reflexivity|].
  unfold guard_of, replace_char, upper in *. cbn [map_string string_forall].
  rewrite IH, andb_true_r. apply guard_char_clean.
Qed.

(** X12: for a record name and a file name in ASCII, an include guard holds
    no dot, no dash and no lower-case letter; and when [gen_include] is
    given no file name the guard is the guard of the record's name followed
    by [_H], with which the text opens in its [#ifndef] and [#define]
    lines. *)
Theorem default_include_guard (self : DataStructGen)
  (include_file : string) (bus_widths : option (list Z))
  (Hname : ascii_only (ds_name self) = true)
  (Hfile : ascii_only include_file = true)
  (Hfit : fits_all (fields self) (widths_or_default bus_widths)) :
  string_forall guard_clean (guard_of include_file) = true
  /\ guard_of (lower (ds_name self) +:+ ".h")
     = guard_of (ds_name self) +:+ "_H"
  /\ exists self' rest,
       gen_include self None bus_widths
       = Ok (self',
             "#ifndef " +:+ guard_of (ds_name self) +:+ "_H" +:+ nl
             +:+ "#define " +:+ guard_of (ds_name self) +:+ "_H" +:+ nl
             +:+ rest).
Proof.
  assert (guard_of (lower (ds_name self) +:+ ".h")
          = guard_of (ds_name self) +:+ "_H") as Hg.
  { unfold guard_of, replace_char, upper.
    rewrite !map_string_app. fold (upper (lower (ds_name self))).
    rewrite upper_lower. reflexivity. }
  split; [apply guard_of_clean|]. split; [exact Hg|].
  set (self1 := {| ds_name := ds_name self; fields := fields self;
                   stream_bus_widths := widths_or_default bus_widths |}).
  destruct (stream_sections_returns self1 (widths_or_default bus_widths) Hfit)
    as [ls Hls].
  unfold gen_include. fold (widths_or_default bus_widths). fold self1.
  rewrite Hls. cbn [bind].
  destruct (gen_stream_dispatch self1) as [wd rd].
  cbn [ds_name self1]. rewrite Hg.
  do 2 eexists. f_equal. f_equal.
  cbn [app]. rewrite join_cons by discriminate.
  rewrite join_cons by discriminate.
  norm_text. reflexivity.
Qed.

Lemma default_include_guard_witness :
  guard_of (lower (ds_name sample_ab) +:+ ".h") = "MSG_H"
  /\ exists self' rest,
       gen_include sample_ab None None
       = Ok (self',
             "#ifndef " +:+ guard_of (ds_name sample_ab) +:+ "_H" +:+ nl
             +:+ "#define " +:+ guard_of (ds_name sample_ab) +:+ "_H" +:+ nl
             +:+ rest).
Proof.
  assert (fits_all (fields sample_ab) (widths_or_default None)) as Hfit
    by (repeat constructor; simpl; lia).
  destruct (default_include_guard sample_ab "msg.h" None
              eq_refl eq_refl Hfit)
    as (_ & H2 & H3).
  split; [exact H2|exact H3].
Defined.

(** ** Field declarations *)

(** X13: whatever the description and the comment style, the text
    [FieldInfo.cpp_decl] returns contains the declaration
    [type name;] at member indentation; and with no description, an empty
    one, or a style other than [above] and [inline], it is that declaration
    alone, the comment being dropped. *)
Theorem field_decl_always_present (f : FieldInfo) :
  let plain := "    " +:+ cpp_repr (dtype f) +:+ " " +:+ name f +:+ ";" in
  contains plain (cpp_decl f)
  /\ (descr_truthy f = false -> cpp_decl f = plain)
  /\ (comment_style f <> "above" -> comment_style f <> "inline" ->
      cpp_decl f = plain).
Proof.
  intros plain. subst plain. unfold cpp_decl. repeat split.
  - destruct (descr_truthy f && String.eqb (comment_style f) "above").
    + exists ("    // " +:+ fmt (descr f) +:+ nl), EmptyString.
      norm_text. now rewrite append_nil_r.
    + destruct (descr_truthy f && String.eqb (comment_style f) "inline").
      * exists EmptyString, (" // " +:+ fmt (descr f)).
        norm_text. cbn [String.append]. norm_text. reflexivity.
      * apply contains_refl.
  - intros ->. reflexivity.
  - intros Ha Hi.
    apply String.eqb_neq in Ha, Hi. rewrite Ha, Hi, !andb_false_r.
    reflexivity.
Qed.

Lemma field_decl_always_present_witness :
  cpp_decl {| name := "a"; dtype := IntType 8 false;
              descr := Some "first"; comment_style := "below" |}
  = "    " +:+ cpp_repr (IntType 8 false) +:+ " " +:+ "a" +:+ ";".
Proof.
  apply (field_decl_always_present
           {| name := "a"; dtype := IntType 8 false;
              descr := Some "first"; comment_style := "below" |});
    discriminate.
Defined.

(** ** Words fetched by the read routine *)

Lemma opened_words_numbered (W : Z) (fs : list FieldInfo) :
  forall cur,
    map pl_word (filter pl_opens (pack_from W cur fs))
    = word_indices (cur_count cur)
        (List.length (filter pl_opens (pack_from W cur fs))).
Proof.
  induction fs as [|f fs IH]; intros cur; [reflexivity|].
  cbn [pack_from]. destruct cur as [[idx off]|].
  - destruct (off + width (dtype f) <=? W);
      cbn [filter pl_opens map List.length word_indices pl_word cur_count].
    + apply (IH (Some (idx, off + width (dtype f)))).
    + f_equal. apply (IH (Some (idx + 1, width (dtype f)))).
  - cbn [filter pl_opens map List.length word_indices pl_word cur_count].
    f_equal. apply (IH (Some (0, width (dtype f)))).
Qed.

Lemma cur_var_count (cur : option (Z * Z)) :
  cur <> None -> cur_var cur = Some ("w" +:+ str (cur_count cur - 1)).
Proof.
  destruct cur as [[idx off]|]; [intros _|contradiction].
  cbn. now replace (idx + 1 - 1) with idx by lia.
Qed.

Lemma cur_after_some (W : Z) (fs : list FieldInfo) :
  forall cur, fs <> [] -> cur_after W cur fs <> None.
Proof.
  induction fs as [|f fs IH]; intros cur Hne; [contradiction|].
  rewrite cur_after_cons.
  destruct (pack_head W cur f) as (p & _ & _ & Hcur). rewrite Hcur.
  destruct fs as [|g fs]; [discriminate|]. apply IH. discriminate.
Qed.

(** X14: for a layout with at least one field, all no wider than the bus,
    the read routine fetches the words [w0], [w1], ..., [w(n-1)] in this
    order, each where its first field is decoded, [n] being the word count;
    and the end-of-message flag it returns is the one of the last word
    fetched, [w(n-1).last]. *)
Theorem read_reports_last_word (self : DataStructGen) (W : Z)
  (Hne : fields self <> [])
  (Hfit : Forall (fits W) (fields self)) :
  let n := knapsack_arrival_count W (fields self) in
  let ps := pack W (fields self) in
  gen_stream_read_lines self W
  = Ok (read_header self W ++ flat_map (read_chunk W) ps
        ++ [ "        bool tlast = w" +:+ str (n - 1) +:+ ".last;";
             EmptyString; "        return tlast;"; "    }" ])
  /\ 1 <= n
  /\ map pl_word (filter pl_opens ps) = word_indices 0 (Z.to_nat n).
Proof.
  intros n ps. subst n ps. unfold pack.
  pose proof (check_widths_ok _ _ Hfit) as Hchk.
  destruct (read_loop_pack W (fields self) Hfit None (read_header self W))
    as [_ Hread].
  change (state_at (read_header self W) None)
    with (init_state (read_header self W)) in Hread.
  pose proof (cur_after_arrivals W (fields self) None) as Hcount.
  cbn [cur_count option_map] in Hcount.
  fold (knapsack_arrival_count W (fields self)) in Hcount.
  pose proof (cur_var_count _ (cur_after_some W (fields self) None Hne))
    as Hvar.
  rewrite Hcount, Z.add_0_l in Hvar.
  pose proof (pack_opened W (fields self) None) as Hopen.
  cbn [option_map] in Hopen.
  fold (knapsack_arrival_count W (fields self)) in Hopen.
  split; [|split].
  - unfold gen_stream_read_lines. rewrite Hchk. cbn [bind].
    rewrite Hread. cbn [bind state_at lines word_var].
    rewrite Hvar, <- app_assoc. reflexivity.
  - destruct (fields self) as [|f fs]; [contradiction|].
    unfold knapsack_arrival_count. cbn [arrivals_from].
    pose proof (arrivals_le_length W fs (Some (width (dtype f)))). lia.
  - rewrite (opened_words_numbered W (fields self) None). cbn [cur_count].
    f_equal. rewrite <- Hopen. now rewrite Nat2Z.id.
Qed.

Lemma read_reports_last_word_witness :
  gen_stream_read_lines sample_2020 32
  = Ok (read_header sample_2020 32
        ++ flat_map (read_chunk 32) (pack 32 (fields sample_2020))
        ++ [ "        bool tlast = w"
             +:+ str (knapsack_arrival_count 32 (fields sample_2020) - 1)
             +:+ ".last;";
             EmptyString; "        return tlast;"; "    }" ]).
Proof.
  assert (fields sample_2020 <> []) as Hne by discriminate.
  assert (Forall (fits 32) (fields sample_2020)) as Hfit
    by (repeat constructor; unfold fits; simpl; lia).
  exact (proj1 (read_reports_last_word sample_2020 32 Hne Hfit)).
Defined.

(** * Properties of the waveform signals *)

(** ** Resampling *)

Section Resampling.

Context {T : Type}.
Variable leb : T -> T -> bool.
Hypothesis leb_trans : transitive leb.

Lemma held_value_none (t : T) (events : list (T * Z)) :
  forall cur,
    Forall (fun ev => leb (fst ev) t = false) events ->
    held_value leb t events cur = cur.
Proof.
  unfold held_value.
  induction events as [|ev events IH]; intros cur Hall; [reflexivity|].
  inversion Hall as [|? ? Hev Hrest]; subst.
  cbn [fold_left]. rewrite Hev. now apply IH.
Qed.

Lemma ascending_above (t a : T) (ts : list T) :
  ascending leb (a :: ts) -> leb a t = false ->
  Forall (fun b => leb b t = false) (a :: ts).
Proof.
  intros [Hall _] Ha. constructor; [exact Ha|].
  eapply Forall_impl; [|exact Hall]. cbn beta.
  intros b Hab. destruct (leb b t) eqn:Hbt; [|reflexivity].
  rewrite (leb_trans a b t Hab Hbt) in Ha. discriminate.
Qed.

Lemma combine_above (t : T) (ts : list T) (vs : list Z) :
  Forall (fun b => leb b t = false) ts ->
  Forall (fun ev => leb (fst ev) t = false) (combine ts vs).
Proof.
  revert vs. induction ts as [|a ts IH]; intros vs Hall; [constructor|].
  destruct vs as [|v vs]; [constructor|].
  inversion Hall; subst. constructor; [assumption|now apply IH].
Qed.

Lemma catch_up_spec (t : T) (ts : list T) :
  forall vs cur,
    (List.length ts <= List.length vs)%nat ->
    ascending leb ts ->
    exists ts' vs' cur',
      catch_up leb t ts vs cur = Done (ts', vs', cur')
      /\ (List.length ts' <= List.length vs')%nat
      /\ ascending leb ts'
      /\ held_value leb t (combine ts vs) cur = cur'
      /\ forall t2,
           leb t t2 = true ->
           held_value leb t2 (combine ts vs) cur
           = held_value leb t2 (combine ts' vs') cur'.
Proof.
  induction ts as [|a ts IH]; intros vs cur Hlen Hasc.
  - exists [], vs, cur. cbn. repeat split; auto.
  - cbn [catch_up]. destruct (leb a t) eqn:Hat.
    + destruct vs as [|v vs]; [cbn in Hlen; lia|].
      destruct (IH vs v ltac:(cbn in Hlen; lia) (proj2 Hasc))
        as (ts' & vs' & cur' & Hrun & Hlen' & Hasc' & Hnow & Hlater).
      exists ts', vs', cur'. rewrite Hrun.
      split; [reflexivity|]. split; [assumption|]. split; [assumption|].
      split.
      * unfold held_value in *. cbn [combine fold_left fst snd].
        now rewrite Hat.
      * intros t2 Ht2. specialize (Hlater t2 Ht2).
        unfold held_value in *. cbn [combine fold_left fst snd].
        now rewrite (leb_trans a t t2 Hat Ht2).
    + exists (a :: ts), vs, cur.
      split; [reflexivity|]. split; [assumption|]. split; [assumption|].
      split; [|reflexivity].
      apply held_value_none, combine_above.
      now apply ascending_above.
Qed.

Lemma resample_loop_spec (clks : list T) :
  forall ts vs cur,
    (List.length ts <= List.length vs)%nat ->
    ascending leb ts -> ascending leb clks ->
    resample_loop leb clks ts vs cur
    = Done (map (fun t => held_value leb t (combine ts vs) cur) clks).
Proof.
  induction clks as [|t clks IH]; intros ts vs cur Hlen Hts Hclk;
    [reflexivity|].
  cbn [resample_loop map].
  destruct (catch_up_spec t ts vs cur Hlen Hts)
    as (ts' & vs' & cur' & Hrun & Hlen' & Hasc' & Hnow & Hlater).
  rewrite Hrun. cbn [vbind].
  rewrite (IH ts' vs' cur' Hlen' Hasc' (proj2 Hclk)). cbn [vbind].
  destruct Hclk as [Hall _].
  rewrite Hnow. f_equal. f_equal.
  apply map_ext_in. intros t2 Hin.
  rewrite Forall_forall in Hall. symmetry. apply (Hlater t2 (Hall t2 Hin)).
Qed.

End Resampling.

(** X15: [resample_signal] is a zero-order hold.  When the signal has numeric
    values, one per event, its event times are in non-decreasing order and
    so are the clock times (for a transitive [<=]), the sample at each clock
    time is the value of the last event at or before it, and the signal's
    first value when no event is that early. *)
Theorem resample_holds_last_value {T : Type} (leb : T -> T -> bool)
  (sig_info : SigInfo T) (clk_times : list T) (v0 : Z) (vs : list Z)
  (Htrans : transitive leb)
  (Hvals : numeric_values sig_info = Some (v0 :: vs))
  (Hlen : List.length (times sig_info) = List.length (v0 :: vs))
  (Hsig : ascending leb (times sig_info))
  (Hclk : ascending leb clk_times) :
  resample_signal leb sig_info clk_times
  = Done (map (fun t =>
                 held_value leb t (combine (times sig_info) (v0 :: vs)) v0)
              clk_times).
Proof.
  unfold resample_signal. rewrite Hvals.
  apply (resample_loop_spec leb Htrans); [lia|assumption|assumption].
Qed.

Lemma resample_holds_last_value_witness :
  resample_signal Z.leb sample_signal [5; 10; 25; 40]
  = Done [0; 5; 0; 3].
Proof.
  assert (transitive Z.leb) as Htrans.
  { intros a b c Hab Hbc. apply Z.leb_le in Hab, Hbc. apply Z.leb_le. lia. }
  assert (ascending Z.leb (times sample_signal)) as Hsig
    by (cbn; repeat split; repeat constructor).
  assert (ascending Z.leb [5; 10; 25; 40]) as Hclk
    by (cbn; repeat split; repeat constructor).
  rewrite (resample_holds_last_value Z.leb sample_signal [5; 10; 25; 40]
             0 [5; 0; 3] Htrans eq_refl eq_refl Hsig Hclk).
  reflexivity.
Defined.

Lemma catch_up_returns {T : Type} (leb : T -> T -> bool) (t : T)
  (ts : list T) :
  forall vs cur,
    (List.length ts <= List.length vs)%nat ->
    exists ts' vs' cur',
      catch_up leb t ts vs cur = Done (ts', vs', cur')
      /\ (List.length ts' <= List.length vs')%nat
      /\ (cur' = cur \/ In cur' vs)
      /\ incl vs' vs.
Proof.
  induction ts as [|a ts IH]; intros vs cur Hlen.
  - exists [], vs, cur. cbn. repeat split; auto using incl_refl.
  - cbn [catch_up]. destruct (leb a t).
    + destruct vs as [|v vs]; [cbn in Hlen; lia|].
      destruct (IH vs v ltac:(cbn in Hlen; lia))
        as (ts' & vs' & cur' & Hrun & Hlen' & Hin & Hincl).
      exists ts', vs', cur'. rewrite Hrun. repeat split; try assumption.
      * right. destruct Hin as [->|Hin]; [now left|now right].
      * now apply incl_tl.
    + exists (a :: ts), vs, cur. repeat split; auto using incl_refl.
Qed.

Lemma resample_loop_returns {T : Type} (leb : T -> T -> bool)
  (clks : list T) :
  forall ts vs cur (all : list Z),
    (List.length ts <= List.length vs)%nat ->
    In cur all -> incl vs all ->
    exists out,
      resample_loop leb clks ts vs cur = Done out
      /\ List.length out = List.length clks
      /\ incl out all.
Proof.
  induction clks as [|t clks IH]; intros ts vs cur all Hlen Hcur Hvs.
  - exists []. repeat split. apply incl_nil_l.
  - cbn [resample_loop].
    destruct (catch_up_returns leb t ts vs cur Hlen)
      as (ts' & vs' & cur' & Hrun & Hlen' & Hin & Hincl).
    rewrite Hrun. cbn [vbind].
    assert (In cur' all) as Hcur'
      by (destruct Hin as [->|Hin]; [assumption|now apply Hvs]).
    destruct (IH ts' vs' cur' all Hlen' Hcur'
                 (incl_tran Hincl Hvs)) as (out & Hout & Hl & Hi).
    rewrite Hout. cbn [vbind]. exists (cur' :: out).
    split; [reflexivity|]. split; [cbn; now rewrite Hl|].
    now apply incl_cons.
Qed.

(** X16: [resample_signal] raises an attribute error on a signal whose
    numeric values were never computed and an index error on a signal with no
    value at all, whatever the clock times, even when there are none; on a
    signal with at least as many values as event times it returns one sample
    per clock time, each of them one of the signal's values, in whatever
    order the times are. *)
Theorem resample_signal_outcomes {T : Type} (leb : T -> T -> bool)
  (sig_info : SigInfo T) (clk_times : list T) :
  match numeric_values sig_info with
  | None => resample_signal leb sig_info clk_times = Fail AttributeError
  | Some [] => resample_signal leb sig_info clk_times = Fail IndexError
  | Some (v0 :: vs) =>
      (List.length (times sig_info) <= List.length (v0 :: vs))%nat ->
      exists out,
        resample_signal leb sig_info clk_times = Done out
        /\ List.length out = List.length clk_times
        /\ incl out (v0 :: vs)
  end.
Proof.
  unfold resample_signal.
  destruct (numeric_values sig_info) as [[|v0 vs]|]; try reflexivity.
  intros Hlen.
  apply (resample_loop_returns leb clk_times (times sig_info) (v0 :: vs) v0
           (v0 :: vs) Hlen); [now left|apply incl_refl].
Qed.

Lemma resample_signal_outcomes_witness :
  exists out,
    resample_signal Z.leb sample_signal [40; 5] = Done out
    /\ List.length out = 2%nat
    /\ incl out [0; 5; 0; 3].
Proof.
  pose proof (resample_signal_outcomes Z.leb sample_signal [40; 5]) as H.
  cbn [numeric_values sample_signal] in H.
  apply H. cbn. lia.
Defined.

(** ** Bursts *)

Lemma get_suffix {A : Type} (arr : list A) (i : nat) (x : A) (suf : list A) :
  suffix_at arr i (x :: suf) ->
  get arr i = Done x /\ suffix_at arr (S i) suf
  /\ nth_error arr i = Some x /\ (i < List.length arr)%nat.
Proof.
  intros (pre & -> & <-).
  assert (nth_error (pre ++ x :: suf) (List.length pre) = Some x) as Hn
    by (rewrite nth_error_app2, Nat.sub_diag by lia; reflexivity).
  unfold get. rewrite Hn. split; [reflexivity|]. split; [|split].
  - exists (pre ++ [x]). rewrite <- app_assoc, length_app. cbn.
    split; [reflexivity|lia].
  - reflexivity.
  - rewrite length_app. cbn. lia.
Qed.

Lemma burst_step_pure {T : Type} (clk_times : list T)
  (tdata tvalid tready tlast : list Z) (i : nat) (c : T) (d v r l : Z)
  (st : option (burst T) * list (burst T)) :
  get clk_times i = Done c -> get tdata i = Done d ->
  get tvalid i = Done v -> get tready i = Done r -> get tlast i = Done l ->
  burst_step clk_times tdata tvalid tready tlast i st
  = Done (beat_step i c (d, v, r, l) st).
Proof.
  intros Hc Hd Hv Hr Hl. destruct st as [current bursts].
  unfold burst_step, beat_step. rewrite Hv. cbn [vbind].
  destruct (nonzero v) eqn:Ev; cbn [andb negb].
  - rewrite Hr. cbn [vbind].
    destruct (nonzero r) eqn:Er; cbn [negb].
    + destruct current as [b0|]; cbn [vbind]; rewrite ?Hc, Hd; cbn [vbind];
        rewrite Hl; cbn [vbind]; destruct (nonzero l); reflexivity.
    + destruct current as [b0|]; reflexivity.
  - cbn [vbind]. destruct current as [b0|]; reflexivity.
Qed.

Lemma burst_loop_pure {T : Type} (clk_times : list T)
  (tdata tvalid tready tlast : list Z) (ds : list Z) :
  forall vs rs ls cs i st,
    List.length vs = List.length ds -> List.length rs = List.length ds ->
    List.length ls = List.length ds -> List.length cs = List.length ds ->
    suffix_at tdata i ds -> suffix_at tvalid i vs -> suffix_at tready i rs ->
    suffix_at tlast i ls -> suffix_at clk_times i cs ->
    burst_loop clk_times tdata tvalid tready tlast
               (seq i (List.length ds)) st
    = Done (beat_loop i cs (zip_beats ds vs rs ls) st).
Proof.
  induction ds as [|d ds IH]; intros vs rs ls cs i st Hv Hr Hl Hc
    Sd Sv Sr Sl Sc.
  - reflexivity.
  - destruct vs as [|v vs]; [discriminate|].
    destruct rs as [|r rs]; [discriminate|].
    destruct ls as [|l ls]; [discriminate|].
    destruct cs as [|c cs]; [discriminate|].
    destruct (get_suffix _ _ _ _ Sd) as (Gd & Sd' & _).
    destruct (get_suffix _ _ _ _ Sv) as (Gv & Sv' & _).
    destruct (get_suffix _ _ _ _ Sr) as (Gr & Sr' & _).
    destruct (get_suffix _ _ _ _ Sl) as (Gl & Sl' & _).
    destruct (get_suffix _ _ _ _ Sc) as (Gc & Sc' & _).
    cbn [List.length seq burst_loop zip_beats beat_loop].
    rewrite (burst_step_pure _ _ _ _ _ i c d v r l st Gc Gd Gv Gr Gl).
    cbn [vbind]. cbn [List.length] in *.
    apply IH; try assumption; lia.
Qed.

Lemma beat_loop_runs {T : Type} (beats : list beat) :
  forall (cs : list T) i current bursts,
    List.length cs = List.length beats ->
    exists current' new,
      beat_loop i cs beats (current, bursts) = (current', bursts ++ new)
      /\ map b_data new
         = map (map uint32) (data_runs beats (pending current)).
Proof.
  induction beats as [|b beats IH]; intros cs i current bursts Hlen.
  - exists current, []. cbn. now rewrite app_nil_r.
  - destruct cs as [|c cs]; [discriminate|].
    destruct b as [[[d v] r] l].
    cbn [beat_loop beat_step data_runs].
    unfold beat_transfer, beat_data. cbn [fst snd].
    injection Hlen as Hlen.
    destruct (nonzero v && nonzero r).
    + destruct (nonzero l).
      * match goal with
        | |- context [beat_loop _ _ _ (None, bursts ++ [?b0])] =>
            destruct (IH cs (S i) None (bursts ++ [b0]) Hlen)
              as (current' & new & Hrun & Hdata);
            exists current', (b0 :: new)
        end.
        rewrite Hrun, <- app_assoc. split; [reflexivity|].
        cbn [map b_data pending] in *. rewrite Hdata.
        destruct current; reflexivity.
      * match goal with
        | |- context [beat_loop _ _ _ (Some ?b0, bursts)] =>
            destruct (IH cs (S i) (Some b0) bursts Hlen)
              as (current' & new & Hrun & Hdata)
        end.
        exists current', new. split; [exact Hrun|].
        rewrite Hdata. cbn [pending b_data]. destruct current; reflexivity.
    + destruct current as [b0|].
      * destruct (IH cs (S i)
                     (Some (add_beat b0 (if nonzero v then 2 else 1)))
                     bursts Hlen)
          as (current' & new & Hrun & Hdata).
        exists current', new. split; [exact Hrun|exact Hdata].
      * destruct (IH cs (S i) None bursts Hlen)
          as (current' & new & Hrun & Hdata).
        exists current', new. split; [exact Hrun|exact Hdata].
Qed.

Lemma data_runs_count (beats : list beat) :
  forall acc,
    List.length (data_runs beats acc)
    = List.length (filter beat_closes beats).
Proof.
  induction beats as [|b beats IH]; intros acc; [reflexivity|].
  cbn [data_runs filter]. unfold beat_closes.
  destruct (beat_transfer b); cbn [andb];
    [destruct (nonzero (snd b)); cbn [List.length]; now rewrite IH|apply IH].
Qed.

Lemma zip_beats_length (tdata tvalid tready tlast : list Z) (n : nat) :
  List.length tdata = n -> List.length tvalid = n ->
  List.length tready = n -> List.length tlast = n ->
  List.length (zip_beats tdata tvalid tready tlast) = n.
Proof.
  revert tdata tvalid tready tlast.
  induction n as [|n IH]; intros [|d ds] [|v vs] [|r rs] [|l ls];
    cbn; try discriminate; try reflexivity.
  intros [= Hd] [= Hv] [= Hr] [= Hl]. f_equal. now apply IH.
Qed.

Lemma suffix_at_start {A : Type} (arr : list A) : suffix_at arr 0 arr.
Proof. exists []. split; reflexivity. Qed.

(** X17: over arrays of one length (as the resampled stream signals are),
    the burst loop of [extract_axis_bursts] raises nothing, and the data of
    the bursts it collects are exactly the runs of transferred words
    (valid and ready both set), each run ended by a transfer with [tlast]
    set, as unsigned 32-bit numbers: idle and stall cycles add no data, a
    run still open at the end is dropped, and there are as many bursts as
    transfers with [tlast]. *)
Theorem bursts_are_tlast_runs {T : Type} (clk_times : list T)
  (tdata tvalid tready tlast : list Z)
  (Hv : List.length tvalid = List.length tdata)
  (Hr : List.length tready = List.length tdata)
  (Hl : List.length tlast = List.length tdata)
  (Hc : List.length clk_times = List.length tdata) :
  let beats := zip_beats tdata tvalid tready tlast in
  exists current bursts,
    burst_loop clk_times tdata tvalid tready tlast
               (seq 0 (List.length tdata)) (None, [])
    = Done (current, bursts)
    /\ map b_data bursts = map (map uint32) (data_runs beats [])
    /\ List.length bursts = List.length (filter beat_closes beats).
Proof.
  intros beats. subst beats.
  rewrite (burst_loop_pure clk_times tdata tvalid tready tlast tdata
             tvalid tready tlast clk_times 0 (None, []) Hv Hr Hl Hc);
    try apply suffix_at_start.
  destruct (beat_loop_runs (zip_beats tdata tvalid tready tlast)
              clk_times 0 None [])
    as (current & new & Hrun & Hdata).
  { now rewrite (zip_beats_length tdata tvalid tready tlast
                   (List.length tdata)). }
  cbn [app] in Hrun. exists current, new.
  split; [now rewrite Hrun|]. split; [exact Hdata|].
  rewrite <- (length_map b_data), Hdata, length_map.
  apply data_runs_count.
Qed.

Lemma bursts_are_tlast_runs_witness :
  exists current bursts,
    burst_loop [0; 10; 20; 30; 40] [7; 8; 9; 10; 11] [1; 1; 0; 1; 1]
               [1; 0; 1; 1; 1] [0; 0; 0; 1; 0]
               (seq 0 5) (@None (burst Z), [])
    = Done (current, bursts)
    /\ map b_data bursts = [[7; 10]].
Proof.
  destruct (bursts_are_tlast_runs [0; 10; 20; 30; 40] [7; 8; 9; 10; 11]
              [1; 1; 0; 1; 1] [1; 0; 1; 1; 1] [0; 0; 0; 1; 0]
              eq_refl eq_refl eq_refl eq_refl)
    as (current & bursts & Hrun & Hdata & _).
  exists current, bursts. split; [exact Hrun|exact Hdata].
Defined.

Lemma shape_transfer {T : Type} (clk_times : list T) (b0 : burst T) (d : Z) :
  burst_shape clk_times b0 ->
  burst_shape clk_times
    {| b_data := b_data b0 ++ [d]; b_start_idx := b_start_idx b0;
       b_beat_type := b_beat_type b0 ++ [0]; b_tstart := b_tstart b0 |}.
Proof.
  intros (H0 & Hn & Hd & Hh & Hc & Hk). unfold burst_shape. cbn.
  repeat split; try assumption.
  - intros E. now apply app_eq_nil in E as [_ E].
  - destruct (b_beat_type b0); [discriminate|exact Hh].
  - rewrite filter_app, !length_app, Hc. reflexivity.
  - apply Forall_app. split; [assumption|]. constructor; [now left|constructor].
Qed.

Lemma shape_fresh {T : Type} (clk_times : list T) (i : nat) (c : T) (d : Z) :
  nth_error clk_times i = Some c ->
  burst_shape clk_times
    {| b_data := [] ++ [d]; b_start_idx := Z.of_nat i;
       b_beat_type := [] ++ [0]; b_tstart := c |}.
Proof.
  intros Hn. unfold burst_shape. cbn [b_data b_start_idx b_beat_type b_tstart].
  rewrite Nat2Z.id. repeat split; try assumption; try lia; try discriminate.
  constructor; [now left|constructor].
Qed.

Lemma shape_wait {T : Type} (clk_times : list T) (b0 : burst T) (k : Z) :
  k = 1 \/ k = 2 ->
  burst_shape clk_times b0 -> burst_shape clk_times (add_beat b0 k).
Proof.
  intros Hk (H0 & Hn & Hd & Hh & Hc & Hks). unfold burst_shape, add_beat. cbn.
  repeat split; try assumption.
  - destruct (b_beat_type b0); [discriminate|exact Hh].
  - rewrite filter_app, length_app, Hc. cbn [filter].
    destruct Hk as [->| ->]; cbn; lia.
  - apply Forall_app. split; [assumption|].
    constructor; [right; exact Hk|constructor].
Qed.

Lemma shape_closed {T : Type} (clk_times : list T) (b : burst T) (i : nat) :
  burst_shape clk_times b ->
  List.last (b_beat_type b) 1 = 0 ->
  (Z.to_nat (b_start_idx b) + List.length (b_beat_type b) = S i)%nat ->
  (i < List.length clk_times)%nat ->
  closed_shape clk_times
    {| b_data := map uint32 (b_data b); b_start_idx := b_start_idx b;
       b_beat_type := b_beat_type b; b_tstart := b_tstart b |}.
Proof.
  intros (H0 & Hn & Hd & Hh & Hc & Hk) Hlast Hspan Hi.
  unfold closed_shape, burst_shape. cbn.
  repeat split; try assumption; try lia;
    try (intros E; apply map_eq_nil in E; contradiction);
    try (now rewrite length_map);
    try (apply Forall_forall; intros x Hx;
         apply in_map_iff in Hx as (y & <- & _);
         unfold uint32; apply Z.mod_pos_bound; reflexivity).
Qed.

Lemma beat_loop_shape {T : Type} (clk_times : list T) (beats : list beat) :
  forall (cs : list T) i current bursts,
    List.length cs = List.length beats ->
    suffix_at clk_times i cs ->
    open_shape clk_times i current ->
    Forall (closed_shape clk_times) bursts ->
    open_shape clk_times (i + List.length beats)
               (fst (beat_loop i cs beats (current, bursts)))
    /\ Forall (closed_shape clk_times)
              (snd (beat_loop i cs beats (current, bursts))).
Proof.
  induction beats as [|b beats IH]; intros cs i current bursts Hlen Hsuf
    Hopen Hclosed.
  - cbn. rewrite Nat.add_0_r. split; assumption.
  - destruct cs as [|c cs]; [discriminate|].
    injection Hlen as Hlen.
    destruct (get_suffix _ _ _ _ Hsuf) as (_ & Hsuf' & Hnth & Hi).
    destruct b as [[[d v] r] l].
    cbn [beat_loop List.length]. rewrite Nat.add_succ_r, <- Nat.add_succ_l.
    cbn [beat_step].
    destruct (nonzero v && nonzero r).
    + assert (exists b1,
                 b1 = {| b_data := b_data
                           match current with
                           | Some b0 => b0
                           | None =>
                               {| b_data := []; b_start_idx := Z.of_nat i;
                                  b_beat_type := []; b_tstart := c |}
                           end ++ [d];
                         b_start_idx := b_start_idx
                           match current with
                           | Some b0 => b0
                           | None =>
                               {| b_data := []; b_start_idx := Z.of_nat i;
                                  b_beat_type := []; b_tstart := c |}
                           end;
                         b_beat_type := b_beat_type
                           match current with
                           | Some b0 => b0
                           | None =>
                               {| b_data := []; b_start_idx := Z.of_nat i;
                                  b_beat_type := []; b_tstart := c |}
                           end ++ [0];
                         b_tstart := b_tstart
                           match current with
                           | Some b0 => b0
                           | None =>
                               {| b_data := []; b_start_idx := Z.of_nat i;
                                  b_beat_type := []; b_tstart := c |}
                           end |}
                 /\ burst_shape clk_times b1
                 /\ List.last (b_beat_type b1) 1 = 0
                 /\ (Z.to_nat (b_start_idx b1)
                     + List.length (b_beat_type b1) = S i)%nat)
        as (b1 & Hb1 & Hshape & Hlast & Hspan).
      { eexists. split; [reflexivity|].
        destruct current as [b0|]; cbn [open_shape] in Hopen.
        - destruct Hopen as [Hs Hsp]. split; [now apply shape_transfer|].
          cbn [b_beat_type b_start_idx]. split; [apply last_last|].
          rewrite length_app. cbn. lia.
        - split; [now apply shape_fresh|]. cbn. split; [reflexivity|].
          rewrite Nat2Z.id. lia. }
      destruct (nonzero l).
      * apply IH; try assumption; [exact I|].
        apply Forall_app. split; [assumption|].
        constructor; [|constructor].
        pose proof (shape_closed clk_times b1 i Hshape Hlast Hspan Hi) as Hc.
        rewrite Hb1 in Hc. cbn [b_data b_start_idx b_beat_type b_tstart] in Hc.
        exact Hc.
      * apply IH; try assumption.
        cbn [open_shape]. rewrite Hb1 in Hshape, Hspan. split; assumption.
    + destruct current as [b0|]; [|now apply IH].
      apply IH; try assumption.
      cbn [open_shape] in *. destruct Hopen as [Hs Hsp]. split.
      * apply shape_wait; [|assumption].
        destruct (nonzero v); [now right|now left].
      * unfold add_beat. cbn. rewrite length_app. cbn. lia.
Qed.

(** X18: over arrays of one length, every burst the loop of
    [extract_axis_bursts] collects starts at a transfer, at index
    [start_idx], with [tstart] the clock time at that index, and ends at a
    transfer; its beat types are 0, 1 or 2, with exactly one 0 per datum;
    it has at least one datum, each datum an unsigned 32-bit number; and
    its beats lie within the arrays. *)
Theorem bursts_well_shaped {T : Type} (clk_times : list T)
  (tdata tvalid tready tlast : list Z)
  (Hv : List.length tvalid = List.length tdata)
  (Hr : List.length tready = List.length tdata)
  (Hl : List.length tlast = List.length tdata)
  (Hc : List.length clk_times = List.length tdata) :
  exists current bursts,
    burst_loop clk_times tdata tvalid tready tlast
               (seq 0 (List.length tdata)) (None, [])
    = Done (current, bursts)
    /\ Forall (closed_shape clk_times) bursts.
Proof.
  rewrite (burst_loop_pure clk_times tdata tvalid tready tlast tdata
             tvalid tready tlast clk_times 0 (None, []) Hv Hr Hl Hc);
    try apply suffix_at_start.
  destruct (beat_loop_shape clk_times (zip_beats tdata tvalid tready tlast)
              clk_times 0 None [])
    as [_ Hclosed].
  - now rewrite (zip_beats_length tdata tvalid tready tlast
                   (List.length tdata)).
  - apply suffix_at_start.
  - exact I.
  - constructor.
  - destruct (beat_loop 0 clk_times (zip_beats tdata tvalid tready tlast)
                        (None, [])) as [current bursts].
    exists current, bursts. split; [reflexivity|exact Hclosed].
Qed.

Lemma bursts_well_shaped_witness :
  exists current bursts,
    burst_loop [0; 10; 20; 30; 40] [7; 8; 9; 10; 11] [1; 1; 0; 1; 1]
               [1; 0; 1; 1; 1] [0; 0; 0; 1; 0]
               (seq 0 5) (@None (burst Z), [])
    = Done (current, bursts)
    /\ Forall (closed_shape [0; 10; 20; 30; 40]) bursts.
Proof.
  exact (bursts_well_shaped [0; 10; 20; 30; 40] [7; 8; 9; 10; 11]
           [1; 1; 0; 1; 1] [1; 0; 1; 1; 1] [0; 0; 0; 1; 0]
           eq_refl eq_refl eq_refl eq_refl).
Defined.

(** ** From signals to bursts *)

Lemma ascending_filtered {T : Type} (leb : T -> T -> bool)
  (keep : T * string -> bool) (ts : list T) :
  forall vs,
    ascending leb ts ->
    ascending leb (map fst (filter keep (combine ts vs)))
    /\ forall a,
         Forall (fun b => leb a b = true) ts ->
         Forall (fun b => leb a b = true)
                (map fst (filter keep (combine ts vs))).
Proof.
  induction ts as [|t ts IH]; intros vs Hasc.
  - cbn. split; [exact I|constructor].
  - destruct vs as [|v vs]; [cbn; split; [exact I|constructor]|].
    destruct Hasc as [Hall Hasc].
    destruct (IH vs Hasc) as [IH1 IH2].
    cbn [combine filter]. split.
    + destruct (keep (t, v)); [|exact IH1].
      cbn [map fst ascending]. split; [now apply IH2|exact IH1].
    + intros a Ha. inversion Ha; subst.
      destruct (keep (t, v)); [|now apply IH2].
      cbn [map fst]. constructor; [assumption|now apply IH2].
Qed.

Lemma resample_ready {T : Type} (leb : T -> T -> bool) (s : SigInfo T)
  (clks : list T) :
  transitive leb -> ready_signal leb s -> ascending leb clks ->
  resample_signal leb s clks = Done (samples_of leb s clks)
  /\ List.length (samples_of leb s clks) = List.length clks.
Proof.
  intros Htrans (v0 & vs & Hvals & Hlen & Hasc) Hclk.
  unfold resample_signal, samples_of. rewrite Hvals.
  split; [|apply length_map].
  apply (resample_loop_spec leb Htrans); [lia|assumption|assumption].
Qed.

(** X19: for a clock signal and four stream signals fit for resampling (for
    a transitive [<=]), [extract_axis_bursts] raises nothing; it samples each
    stream signal at the times the clock's value is ['1'], holding the last
    value at or before each such time, and the bursts it returns carry
    exactly the [tlast]-ended runs of the words sampled while valid and
    ready are both set, each burst well shaped with respect to those clock
    times. *)
Theorem axis_bursts_from_signals {T : Type} (leb : T -> T -> bool)
  (clk_sig d_sig v_sig r_sig l_sig : SigInfo T)
  (Htrans : transitive leb)
  (Hclk : ascending leb (times clk_sig))
  (Hd : ready_signal leb d_sig) (Hv : ready_signal leb v_sig)
  (Hr : ready_signal leb r_sig) (Hl : ready_signal leb l_sig) :
  let clks := extract_clock_times clk_sig in
  let beats :=
    zip_beats (samples_of leb d_sig clks) (samples_of leb v_sig clks)
              (samples_of leb r_sig clks) (samples_of leb l_sig clks) in
  exists bursts,
    axis_bursts leb clk_sig d_sig v_sig r_sig l_sig = Done bursts
    /\ map b_data bursts = map (map uint32) (data_runs beats [])
    /\ List.length bursts = List.length (filter beat_closes beats)
    /\ Forall (closed_shape clks) bursts.
Proof.
  intros clks beats.
  assert (ascending leb clks) as Hclks
    by (apply (ascending_filtered leb _ (times clk_sig)); exact Hclk).
  destruct (resample_ready leb d_sig clks Htrans Hd Hclks) as [Ed Ld].
  destruct (resample_ready leb v_sig clks Htrans Hv Hclks) as [Ev Lv].
  destruct (resample_ready leb r_sig clks Htrans Hr Hclks) as [Er Lr].
  destruct (resample_ready leb l_sig clks Htrans Hl Hclks) as [El Ll].
  unfold axis_bursts. fold clks. rewrite Ed, Ev, Er, El. cbn [vbind].
  set (td := samples_of leb d_sig clks) in *.
  set (tv := samples_of leb v_sig clks) in *.
  set (tr := samples_of leb r_sig clks) in *.
  set (tl := samples_of leb l_sig clks) in *.
  assert (List.length tv = List.length td) as H1 by lia.
  assert (List.length tr = List.length td) as H2 by lia.
  assert (List.length tl = List.length td) as H3 by lia.
  assert (List.length clks = List.length td) as H4 by lia.
  rewrite (burst_loop_pure clks td tv tr tl td tv tr tl clks 0 (None, [])
             H1 H2 H3 H4); try apply suffix_at_start.
  cbn [vbind].
  assert (List.length clks = List.length (zip_beats td tv tr tl)) as Hz
    by (now rewrite (zip_beats_length td tv tr tl (List.length td))).
  destruct (beat_loop_runs (zip_beats td tv tr tl) clks 0 None [] Hz)
    as (current & new & Hrun & Hdata).
  destruct (beat_loop_shape clks (zip_beats td tv tr tl) clks 0 None []
              Hz (suffix_at_start clks) I (Forall_nil _)) as [_ Hshape].
  rewrite Hrun in *. cbn [snd app] in *.
  exists new. split; [reflexivity|]. split; [exact Hdata|].
  split; [|exact Hshape].
  rewrite <- (length_map b_data), Hdata, length_map.
  apply data_runs_count.
Qed.

Lemma axis_bursts_from_signals_witness :
  exists bursts,
    axis_bursts Z.leb sample_clock sample_signal sample_clock sample_clock
                sample_clock
    = Done bursts
    /\ map b_data bursts = [[0]; [5]; [0]; [3]].
Proof.
  assert (transitive Z.leb) as Htrans.
  { intros a b c Hab Hbc. apply Z.leb_le in Hab, Hbc. apply Z.leb_le. lia. }
  assert (ascending Z.leb (times sample_clock)) as Hclk
    by (cbn; repeat split; repeat constructor).
  assert (ready_signal Z.leb sample_clock) as Hc.
  { exists 0, [1; 0; 1; 0; 1; 0; 1].
    split; [reflexivity|]. split; [reflexivity|exact Hclk]. }
  assert (ready_signal Z.leb sample_signal) as Hs.
  { exists 0, [5; 0; 3]. split; [reflexivity|]. split; [reflexivity|].
    cbn; repeat split; repeat constructor. }
  destruct (axis_bursts_from_signals Z.leb sample_clock sample_signal
              sample_clock sample_clock sample_clock Htrans Hclk Hs Hc Hc Hc)
    as (bursts & Hrun & Hdata & _).
  exists bursts. split; [exact Hrun|]. rewrite Hdata. reflexivity.
Defined.

(** ** Construction of a signal *)




Lemma last_piece_cons (x : string) (l : list string) :
  l <> [] -> last_piece (x :: l) = last_piece l.
Proof. destruct l; [contradiction|reflexivity]. Qed.

Lemma split_on_last (sep : ascii) (s : string) :
  (split_on sep s = [s] /\ free_of sep s = true)
  \/ (exists pre rest,
         split_on sep s = rest /\ (2 <= List.length rest)%nat
         /\ free_of sep (last_piece rest) = true
         /\ s = pre +:+ String sep (last_piece rest)).
Proof.
  induction s as [|c s IH]; [left; split; reflexivity|].
  cbn [split_on]. destruct (Ascii.eqb c sep) eqn:Ec.
  - apply Ascii.eqb_eq in Ec. subst c. right.
    destruct IH as [[Hs Hf]|(pre & rest & Hs & Hlen & Hf & Heq)].
    + exists EmptyString, (EmptyString :: [s]). rewrite Hs.
      repeat split; [cbn; lia|exact Hf].
    + exists (String sep pre), (EmptyString :: rest). rewrite Hs.
      rewrite last_piece_cons by (destruct rest; [cbn in Hlen; lia|discriminate]).
      repeat split; [cbn; lia|exact Hf|].
      cbn [String.append]. f_equal. exact Heq.
  - destruct IH as [[Hs Hf]|(pre & rest & Hs & Hlen & Hf & Heq)].
    + left. rewrite Hs. split; [reflexivity|].
      unfold free_of in *. cbn [string_forall]. now rewrite Ec, Hf.
    + right. rewrite Hs.
      destruct rest as [|h [|h2 t]]; try (cbn in Hlen; lia).
      exists (String c pre), (String c h :: h2 :: t).
      rewrite last_piece_cons by discriminate.
      rewrite last_piece_cons in Hf, Heq by discriminate.
      repeat split; [cbn; lia|exact Hf|].
      cbn [String.append]. f_equal. exact Heq.
Qed.

Lemma set_format_short_name {T : Type} (s : SigInfo T) :
  short_name (set_format s) = short_name s.
Proof.
  unfold set_format.
  destruct (forallb is_bit _); [|destruct (forallb is_bits _)];
    cbn [sig_name]; destruct (truthy (sig_name s));
    try destruct (substr_b "clock" _ || substr_b "clk" _); reflexivity.
Qed.

(** X21: the short name [SigInfo.__init__] gives a signal is the part of
    its name after the last dot: it holds no dot, and the name is either the
    short name itself (when the name has no dot) or something, a dot, and
    the short name. *)
Theorem short_name_after_last_dot {T : Type} (scale : Z -> T) (nm : string)
  (tv : list (Z * string)) :
  let sn := short_name (SigInfo_init scale nm tv) in
  free_of "." sn = true
  /\ ((nm = sn /\ free_of "." nm = true)
      \/ exists pre, nm = pre +:+ "." +:+ sn).
Proof.
  intros sn. subst sn. unfold SigInfo_init.
  rewrite set_format_short_name. cbn [short_name].
  destruct (split_on_last "." nm)
    as [[Hs Hf]|(pre & rest & Hs & _ & Hf & Heq)].
  - rewrite Hs. cbn. split; [exact Hf|]. left. split; [reflexivity|exact Hf].
  - rewrite Hs. split; [exact Hf|]. right. exists pre. exact Heq.
Qed.

(** ** Derived operations of a layout without fields *)

(** X22: for a layout with no field, [gen_equality_operator] returns an
    operator whose [return] statement has no operand, and
    [gen_string_method] a method that writes the two braces and nothing
    between them. *)
Theorem derived_ops_without_fields (nm : string) (ws : list Z) :
  let self := {| ds_name := nm; fields := []; stream_bus_widths := ws |} in
  gen_equality_operator self
  = join nl [ "    bool operator==(const " +:+ nm +:+ "& other) const {";
              "        return ;";
              "    }" ]
  /\ gen_string_method self
     = join nl [ "    std::string to_string() const {";
                 "        std::ostringstream oss;";
                 "        oss << " +:+ dq +:+ "{" +:+ dq +:+ ";";
                 "        oss << " +:+ dq +:+ "}" +:+ dq +:+ ";";
                 "        return oss.str();";
                 "    }" ].
Proof. intros self. split; reflexivity. Qed.
